(** * On-completion actions of obsidian-tasks: a shallow embedding

    The development follows [src/Task/OnCompletion.ts].  JavaScript strings
    are sequences of UTF-16 code units, arrays are lists, array indices and
    the insertion cursor are integers ([Z], so that the index [-1] of a
    missing heading is visible), [Task] objects live in a store and are
    compared by reference, and the calls made to the injected [fileWriter]
    are recorded in a log. *)

From Stdlib Require Import ZArith NArith Ascii String Lia Bool.
From stdpp Require Import base decidable option numbers list.

Local Open Scope Z_scope.

(** ** JavaScript strings and arrays *)

Module JS.

(** A string value is the sequence of its UTF-16 code units. *)
Abbreviation jsstring := (list N).

(** An ASCII-only literal, code unit by code unit. *)
Definition lit (s : string) : jsstring :=
  map N_of_ascii (list_ascii_of_string s).

(** U+1F3C1 (chequered flag) is outside the basic plane: a surrogate pair. *)
Definition FLAG : jsstring := [0xD83C; 0xDFC1]%N.

Definition NEWLINE_UNIT : N := 10%N.

(** [s.length] *)
Definition strlen (s : jsstring) : Z := Z.of_nat (length s).

(** [s.substring(start, end)]: arguments are clamped to [0, s.length] and
    swapped when [start > end]. *)
Definition substring (s : jsstring) (start stop : Z) : jsstring :=
  let clamp i := Z.max 0 (Z.min i (strlen s)) in
  let a := Z.min (clamp start) (clamp stop) in
  let b := Z.max (clamp start) (clamp stop) in
  take (Z.to_nat (b - a)) (drop (Z.to_nat a) s).

(** [s.substring(start)] *)
Definition substringFrom (s : jsstring) (start : Z) : jsstring :=
  substring s start (strlen s).

(** [s.startsWith(p)], used to define [includes]. *)
Fixpoint startsWith (s p : jsstring) {struct p} : bool :=
  match p, s with
  | [], _ => true
  | _ :: _, [] => false
  | a :: p', b :: s' => N.eqb a b && startsWith s' p'
  end.

(** [s.includes(needle)] *)
Fixpoint includes (s needle : jsstring) : bool :=
  startsWith s needle ||
  match s with
  | [] => false
  | _ :: s' => includes s' needle
  end.

(** WhiteSpace and LineTerminator code points of ECMAScript, the set
    removed by [trimStart]. *)
Definition isWhiteSpace (c : N) : bool :=
  ((c =? 0x9) || (c =? 0xA) || (c =? 0xB) || (c =? 0xC) || (c =? 0xD) ||
   (c =? 0x20) || (c =? 0xA0) || (c =? 0x1680) ||
   ((0x2000 <=? c) && (c <=? 0x200A)) ||
   (c =? 0x2028) || (c =? 0x2029) || (c =? 0x202F) || (c =? 0x205F) ||
   (c =? 0x3000) || (c =? 0xFEFF))%N.

(** [s.trimStart()] *)
Fixpoint trimStart (s : jsstring) : jsstring :=
  match s with
  | [] => []
  | c :: s' => if isWhiteSpace c then trimStart s' else s
  end.

(** [s.split(sep)] for a separator of one code unit; the result always has
    at least one element. *)
Fixpoint split (sep : N) (s : jsstring) : list jsstring :=
  match s with
  | [] => [[]]
  | c :: s' =>
      if N.eqb c sep then [] :: split sep s'
      else match split sep s' with
           | [] => [[c]]
           | l :: ls => (c :: l) :: ls
           end
  end.

(** [arr.join(sep)] *)
Fixpoint join (sep : jsstring) (arr : list jsstring) : jsstring :=
  match arr with
  | [] => []
  | [l] => l
  | l :: ls => l ++ sep ++ join sep ls
  end.

(** [arr.indexOf(x)]: first index holding a string equal to [x], else -1. *)
Fixpoint indexOfFrom (arr : list jsstring) (x : jsstring) (i : Z) : Z :=
  match arr with
  | [] => -1
  | y :: arr' => if decide (y = x) then i else indexOfFrom arr' x (i + 1)
  end.

Definition indexOf (arr : list jsstring) (x : jsstring) : Z :=
  indexOfFrom arr x 0.

(** [arr.slice(start)]: a negative [start] counts from the end. *)
Definition slice (arr : list jsstring) (start : Z) : list jsstring :=
  let len := Z.of_nat (length arr) in
  let k := if start <? 0 then Z.max (len + start) 0 else Z.min start len in
  drop (Z.to_nat k) arr.

(** [arr[i] += suffix] on an array of strings.  Inside the array the element
    is extended.  A negative [i] names an ordinary property of the array
    object, which [join] never reads, so the array elements stay as they
    are.  Past the end the array grows, the holes join as empty strings and
    the new element is ["undefined" + suffix]. *)
Definition appendAt (arr : list jsstring) (i : Z) (suffix : jsstring)
  : list jsstring :=
  if i <? 0 then arr
  else if i <? Z.of_nat (length arr)
       then alter (fun l => l ++ suffix) (Z.to_nat i) arr
       else arr ++ replicate (Z.to_nat i - length arr) []
                ++ [lit "undefined" ++ suffix].

(** *** Regular expressions

    The fragment needed for [TASK_REGEX]: literals, [.], sequence,
    alternation and [*].  Matching is by Brzozowski derivatives, which
    accepts exactly when the backtracking matcher of the language finds a
    match. *)

Inductive regex : Type :=
| Fail
| Eps
| Chr (c : N)
| Dot
| Seq (r1 r2 : regex)
| Alt (r1 r2 : regex)
| Star (r : regex).

(** [\n], [\r], U+2028 and U+2029 are not matched by [.] *)
Definition isLineTerminator (c : N) : bool :=
  ((c =? 0xA) || (c =? 0xD) || (c =? 0x2028) || (c =? 0x2029))%N.

Fixpoint nullable (r : regex) : bool :=
  match r with
  | Fail => false
  | Eps => true
  | Chr _ => false
  | Dot => false
  | Seq r1 r2 => nullable r1 && nullable r2
  | Alt r1 r2 => nullable r1 || nullable r2
  | Star _ => true
  end.

Fixpoint deriv (c : N) (r : regex) : regex :=
  match r with
  | Fail => Fail
  | Eps => Fail
  | Chr d => if N.eqb c d then Eps else Fail
  | Dot => if isLineTerminator c then Fail else Eps
  | Seq r1 r2 =>
      if nullable r1 then Alt (Seq (deriv c r1) r2) (deriv c r2)
      else Seq (deriv c r1) r2
  | Alt r1 r2 => Alt (deriv c r1) (deriv c r2)
  | Star r1 => Seq (deriv c r1) (Star r1)
  end.

(** Does the pattern match some prefix of [s]? *)
Fixpoint matchesPrefix (r : regex) (s : jsstring) : bool :=
  nullable r ||
  match s with
  | [] => false
  | c :: s' => matchesPrefix (deriv c r) s'
  end.

(** [s.search(/^r/)] without the [m] flag: the only candidate position is
    the start of the string, so the result is 0 or -1. *)
Definition searchAnchored (r : regex) (s : jsstring) : Z :=
  if matchesPrefix r s then 0 else -1.

(** The pattern of a literal string. *)
Fixpoint str (s : jsstring) : regex :=
  match s with
  | [] => Eps
  | c :: s' => Seq (Chr c) (str s')
  end.

End JS.

Import JS.

(** ** Results of functions that may throw *)

Inductive Result (A : Type) : Type :=
| Ok (a : A)
| Throw (message : jsstring).

Arguments Ok {A} a.
Arguments Throw {A} message.

(** ** [removeCalloutPrefixes] and [adjustLineForArchival] *)

(** The [while] loop removes two code units per round; the fuel is the
    length of the line, which bounds the number of rounds. *)
Fixpoint removeCalloutPrefixes_loop (fuel : nat) (lineOfText : jsstring)
  : jsstring :=
  match fuel with
  | O => lineOfText
  | S fuel' =>
      if decide (substring lineOfText 0 2 = lit "> ")
      then removeCalloutPrefixes_loop fuel' (substringFrom lineOfText 2)
      else lineOfText
  end.

Definition removeCalloutPrefixes (lineOfText : jsstring) : jsstring :=
  removeCalloutPrefixes_loop (length lineOfText) lineOfText.

Definition adjustLineForArchival (changedStatusTaskLine : jsstring) : jsstring :=
  removeCalloutPrefixes (trimStart changedStatusTaskLine).

(** ** [appendToEndOfFile] *)

Module FileWriter.

(** [s.endsWith(p)] *)
Definition endsWith (s p : jsstring) : bool :=
  startsWith (reverse s) (reverse p).

(** Modelled from the spec: [appendToEndOfFile] of [src/lib/FileWriter.ts],
    which [OnCompletion.ts] imports and which is not among the sources at
    hand.  The spec has it append the line plus a trailing newline to the
    end of the existing content, turning the empty content into the line and
    a newline; the tests of the ToLogFile action show in addition that
    content which does not end in a newline is first closed by one. *)
Definition appendToEndOfFile (initialContent textToAppend : jsstring)
  : jsstring :=
  let NEWLINE := [NEWLINE_UNIT] in
  let separator :=
    if (strlen initialContent =? 0) || endsWith initialContent NEWLINE
    then [] else NEWLINE in
  initialContent ++ separator ++ textToAppend ++ NEWLINE.

End FileWriter.

(** ** Statuses and tasks *)

(** Modelled from the spec: the enumeration [StatusType] of
    [src/Statuses/StatusConfiguration.ts], which is imported but not part of
    the sources at hand.  The spec names the coarse categories TODO,
    IN_PROGRESS, DONE and CANCELLED; only equality of categories and the
    category DONE are used below. *)
Inductive StatusType : Type :=
| TODO
| DONE
| IN_PROGRESS
| CANCELLED.

#[global] Instance StatusType_eq_dec : EqDecision StatusType.
Proof. solve_decision. Defined.

(** The part of a [Status] that the module reads, with the symbol that
    distinguishes two statuses of the same type. *)
Record Status : Type := mkStatus {
  symbol : jsstring;
  type : StatusType
}.

(** A [Task] object as far as [handleOnCompletion] reads it.
    [toFileLineString] is the result of the method of that name, which is
    defined in [src/Task/Task.ts]. *)
Record Task : Type := mkTask {
  status : Status;
  description : jsstring;
  path : jsstring;
  toFileLineString : jsstring
}.

(** Tasks are objects: an array of tasks holds references, and [!==]
    compares references.  Every reference denotes an object. *)
Definition ref : Type := nat.
Abbreviation Store := (ref -> Task).

(** ** Effects: the calls that [handleOnCompletion] makes *)

Inductive Event : Type :=
| FileWriterCall (filePath : jsstring)
                 (fileContentUpdater : jsstring -> Result jsstring)
| ConsoleLog (message : jsstring).

(** A computation returns a value and the events it produced, in order. *)
Definition Eff (A : Type) : Type := list Event * A.

Definition ret {A} (a : A) : Eff A := ([], a).

Definition bind {A B} (m : Eff A) (k : A -> Eff B) : Eff B :=
  let '(es1, a) := m in
  let '(es2, b) := k a in
  (es1 ++ es2, b).

Definition fileWriter (filePath : jsstring)
    (fileContentUpdater : jsstring -> Result jsstring) : Eff unit :=
  ([FileWriterCall filePath fileContentUpdater], tt).

Definition consoleLog (message : jsstring) : Eff unit :=
  ([ConsoleLog message], tt).

Notation "m ;; k" := (bind m (fun _ => k))
  (at level 100, k at level 200, right associativity).

(** The calls to the injected writer found in a log. *)
Definition fileWriterCalls (es : list Event)
  : list (jsstring * (jsstring -> Result jsstring)) :=
  omap (fun e => match e with
                 | FileWriterCall p f => Some (p, f)
                 | ConsoleLog _ => None
                 end) es.

(** Running a log against an injected writer, a function that receives the
    path and the updater and acts on some world [W] of its own. *)
Definition runEvents {W : Type}
    (writer : jsstring -> (jsstring -> Result jsstring) -> W -> W)
    (es : list Event) (w : W) : W :=
  fold_left (fun w e => match e with
                        | FileWriterCall p f => writer p f w
                        | ConsoleLog _ => w
                        end) es w.

(** ** [writeLineToListEnd] *)

(** [new RegExp('^(> )*( *(- \\[.]))')], without the anchor, which
    [searchAnchored] accounts for. *)
Definition TASK_REGEX : regex :=
  Seq (Star (str (lit "> ")))
      (Seq (Star (Chr 0x20%N))
           (Seq (str (lit "- ["))
                (Seq Dot (Chr 0x5D%N)))).

(** The [for ... of] loop over [linesArray.slice(insertionLine)]. *)
Fixpoint advanceInsertionLine (lines : list jsstring) (insertionLine : Z) : Z :=
  match lines with
  | [] => insertionLine
  | thisLine :: rest =>
      if searchAnchored TASK_REGEX thisLine =? -1 then insertionLine
      else advanceInsertionLine rest (insertionLine + 1)
  end.

Definition emptyHeadingMessage : jsstring :=
  lit "Cannot move line to list as empty target list heading was supplied".

Definition writeLineToListEnd
    (initialFileContent targetListHeading textToAppend : jsstring)
  : Result jsstring :=
  if strlen textToAppend =? 0 then Ok initialFileContent
  else if decide (targetListHeading = []) then Throw emptyHeadingMessage
  else
    let NEWLINE := [NEWLINE_UNIT] in
    let linesArray := split NEWLINE_UNIT initialFileContent in
    let insertionLine := indexOf linesArray targetListHeading + 1 in
    let insertionLine :=
      advanceInsertionLine (slice linesArray insertionLine) insertionLine in
    let linesArray :=
      appendAt linesArray (insertionLine - 1) (NEWLINE ++ textToAppend) in
    Ok (join NEWLINE linesArray).

(** ** [handleOnCompletion] *)

Definition returnWithoutCompletedInstance (tasks : list ref)
    (changedStatusTask : ref) : list ref :=
  filter (fun task => task <> changedStatusTask) tasks.

Definition defaultToLogFilePath : jsstring :=
  lit "Manual Testing/On Completion/Archive.md".

Definition ocTrigger : jsstring := lit " " ++ FLAG ++ lit " ".

(** ['Unknown "On Completion" action'], with the code unit 0x22 for the
    double quotes. *)
Definition unknownActionMessage : jsstring :=
  lit "Unknown " ++ [0x22%N] ++ lit "On Completion" ++ [0x22%N] ++ lit " action".

Definition archiveHeading : jsstring := lit "## Archived Tasks - Appended".

Section HandleOnCompletion.

(** [appendToEndOfFile] is imported from [src/lib/FileWriter.ts]; the
    dispatcher below only passes it on to the writer. *)
Variable appendToEndOfFile : jsstring -> jsstring -> jsstring.

Variable store : Store.

(** [toLogFilePath] has the default [defaultToLogFilePath]; the injected
    [fileWriter] is the effect of that name.  [last tasks] is
    [tasks[tasksArrayLength - 1]], and there is none exactly when
    [tasksArrayLength === 0]. *)
Definition handleOnCompletion (task : ref) (tasks : list ref)
    (toLogFilePath : jsstring) : Eff (list ref) :=
  match last tasks with
  | None => ret tasks
  | Some changedStatusTask =>
      let startStatus := status (store task) in
      let endStatus := status (store changedStatusTask) in
      let taskString := description (store changedStatusTask) in
      if negb (includes taskString ocTrigger)
         || negb (bool_decide (type endStatus = DONE))
         || bool_decide (type endStatus = type startStatus)
      then ret tasks
      else if includes taskString (FLAG ++ lit " Delete")
      then ret (returnWithoutCompletedInstance tasks changedStatusTask)
      else
        let changedStatusTaskLine := toFileLineString (store changedStatusTask) in
        let textToWrite := adjustLineForArchival changedStatusTaskLine in
        if includes taskString (FLAG ++ lit " ToLogFile")
        then
          fileWriter toLogFilePath
            (fun data => Ok (appendToEndOfFile data textToWrite)) ;;
          ret (returnWithoutCompletedInstance tasks changedStatusTask)
        else if includes taskString (FLAG ++ lit " ToLogList")
        then
          let filePath := path (store changedStatusTask) in
          fileWriter filePath
            (fun data => writeLineToListEnd data archiveHeading textToWrite) ;;
          ret (returnWithoutCompletedInstance tasks changedStatusTask)
        else if includes taskString (FLAG ++ lit " EndOfList")
        then
          let filePath := path (store changedStatusTask) in
          fileWriter filePath
            (fun data => writeLineToListEnd data archiveHeading textToWrite) ;;
          ret (returnWithoutCompletedInstance tasks changedStatusTask)
        else
          let errorMessage := unknownActionMessage in
          consoleLog errorMessage ;;
          ret tasks
  end.

End HandleOnCompletion.

(** [handleOnCompletion] called with an injected writer that acts on a world
    of its own: the list that is returned and the world after the calls. *)
Definition handleOnCompletionWith {W : Type}
    (writer : jsstring -> (jsstring -> Result jsstring) -> W -> W)
    (appendToEndOfFile : jsstring -> jsstring -> jsstring)
    (store : Store) (task : ref) (tasks : list ref)
    (toLogFilePath : jsstring) (w : W) : list ref * W :=
  let '(events, result) :=
    handleOnCompletion appendToEndOfFile store task tasks toLogFilePath in
  (result, runEvents writer events w).

(** ** Definitions used to state the properties *)

(** The loop of [removeCalloutPrefixes], by recursion on the line. *)
Fixpoint stripQuoteMarkers (s : jsstring) : jsstring :=
  match s with
  | a :: b :: s' =>
      if ((a =? 0x3E) && (b =? 0x20))%N then stripQuoteMarkers s' else s
  | _ => s
  end.

(** [k] quote markers and nothing else. *)
Definition quoteMarkers (k : nat) : jsstring := concat (replicate k (lit "> ")).


(** The strings matched by a pattern. *)
Inductive lang : regex -> jsstring -> Prop :=
| lang_eps : lang Eps []
| lang_chr c : lang (Chr c) [c]
| lang_dot c : isLineTerminator c = false -> lang Dot [c]
| lang_seq r1 r2 s1 s2 :
    lang r1 s1 -> lang r2 s2 -> lang (Seq r1 r2) (s1 ++ s2)
| lang_alt_l r1 r2 s : lang r1 s -> lang (Alt r1 r2) s
| lang_alt_r r1 r2 s : lang r2 s -> lang (Alt r1 r2) s
| lang_star_nil r : lang (Star r) []
| lang_star_cons r s1 s2 :
    lang r s1 -> lang (Star r) s2 -> lang (Star r) (s1 ++ s2).

(** The loop of [writeLineToListEnd] goes on while [search] does not return
    -1. *)
Definition isTaskLine (thisLine : jsstring) : bool :=
  negb (searchAnchored TASK_REGEX thisLine =? -1).

(** The shape of a line of a task list, written out: any number of ["> "]
    markers, any number of spaces, ["- ["], one UTF-16 code unit that is no
    line terminator, ["]"], and anything after that. *)
Definition listItemShaped (l : jsstring) : Prop :=
  exists k m c rest,
    l = quoteMarkers k ++ replicate m 0x20%N ++ lit "- [" ++ [c] ++ lit "]"
          ++ rest
    /\ isLineTerminator c = false.


(** ** Sample tasks and files *)

Module Examples.

Definition todo : Status := mkStatus (lit " ") TODO.
Definition done : Status := mkStatus (lit "x") DONE.
Definition inProgress : Status := mkStatus (lit "/") IN_PROGRESS.

(** A task of the file [notes.md] with the given status, description and
    indentation; the line is the indentation, the checkbox and the
    description. *)
Definition sampleTask (st : Status) (indentation descr : jsstring) : Task :=
  {| status := st;
     description := descr;
     path := lit "notes.md";
     toFileLineString :=
       indentation ++ lit "- [" ++ symbol st ++ lit "] " ++ descr |}.

Definition withAction (action : string) : jsstring :=
  lit "A recurring task with " ++ FLAG ++ lit " " ++ lit action.

(** Reference 0 is the original task, reference 1 the next occurrence and
    every other reference the completed instance. *)
Definition sampleStore (original next completed : Task) : Store :=
  fun r => match r with
           | O => original
           | S O => next
           | _ => completed
           end.

(** A recurring task with the given action is completed. *)
Definition completing (action : string) : Store :=
  sampleStore (sampleTask todo [] (withAction action))
              (sampleTask todo [] (withAction action))
              (sampleTask done [] (withAction action)).

(** The same task is only started. *)
Definition starting (action : string) : Store :=
  sampleStore (sampleTask todo [] (withAction action))
              (sampleTask todo [] (withAction action))
              (sampleTask inProgress [] (withAction action)).

Definition archivePath : jsstring := lit "archive.md".

Definition NL : jsstring := [NEWLINE_UNIT].

Definition headingAndItem : jsstring :=
  lit "heading" ++ NL ++ lit "- [ ] item".

Definition projectNote : jsstring :=
  lit "# Project" ++ NL ++ NL ++ lit "- [ ] Pending task".

Definition quotedIndentedLine : jsstring :=
  lit "> >    - [ ] An INDENTED incomplete task".

(** A note with a task list under a heading, the items of the list and the
    lines after it being given. *)
Definition noteWithList (items rest : list jsstring) : jsstring :=
  join NL ([lit "Sed ipsam libero."; lit "## MY TASK LIST"] ++ items ++ rest).

Definition completedItem : jsstring :=
  lit "- [-] A COMPLETED TASK TO INSERT AT END OF NAMED LIST".

(** What may follow the list: a blank line, regular text, another heading,
    or nothing. *)
Definition continuations : list (list jsstring) :=
  [ [[]; lit "Final line in note file."];
    [lit "A line of regular text."];
    [lit "## Another list heading"];
    [] ].

(** Lists of one item, with an indented item, and inside block quotes. *)
Definition lists : list (list jsstring) :=
  [ [lit "- [ ] An incomplete task"];
    [lit "- [ ] An incomplete task";
     lit "    - [ ] An INDENTED incomplete task"];
    [lit "> - [x] A quoted task"; lit "> >    - [/] A nested quoted task"] ].

End Examples.

(** ** More string methods *)

(** [s.trimEnd()] *)
Definition trimEnd (s : jsstring) : jsstring :=
  reverse (trimStart (reverse s)).

(** [s.trim()] *)
Definition trim (s : jsstring) : jsstring := trimEnd (trimStart s).

(** [s.replace(searchValue, replaceValue)] with a string as [searchValue]:
    the first occurrence only; an empty [searchValue] occurs at the start.
    The replacement is taken as it is, which is what the method does when it
    holds no [$]. *)
Fixpoint replace (s searchValue replaceValue : jsstring) : jsstring :=
  if startsWith s searchValue
  then replaceValue ++ drop (length searchValue) s
  else match s with
       | [] => []
       | c :: s' => c :: replace s' searchValue replaceValue
       end.

(** ** [GlobalFilter] *)

Module GlobalFilter.

(** The fields of an object of the class. *)
Record instance : Type := mkInstance {
  _globalFilter : jsstring;
  _removeGlobalFilter : bool
}.

(** The private static field [instance], undefined until the first call of
    [getInstance]; the object it holds is updated in place. *)
Definition statics : Type := option instance.

Definition empty : jsstring := [].

(** [new GlobalFilter()] *)
Definition fresh : instance := mkInstance [] false.

Definition getInstance (st : statics) : instance * statics :=
  match st with
  | None => (fresh, Some fresh)
  | Some g => (g, Some g)
  end.

Definition get (st : statics) : jsstring * statics :=
  let '(g, st) := getInstance st in (_globalFilter g, st).

Definition set (value : jsstring) (st : statics) : unit * statics :=
  let '(g, _) := getInstance st in
  (tt, Some (mkInstance value (_removeGlobalFilter g))).

Definition reset (st : statics) : unit * statics := set empty st.

Definition isEmpty (st : statics) : bool * statics :=
  let '(v, st) := get st in (bool_decide (v = empty), st).

Definition equals (tag : jsstring) (st : statics) : bool * statics :=
  let '(v, st) := get st in (bool_decide (v = tag), st).

Definition includedIn (description : jsstring) (st : statics)
  : bool * statics :=
  let '(globalFilter, st) := get st in
  (includes description globalFilter, st).

Definition prependTo (description : jsstring) (st : statics)
  : jsstring * statics :=
  let '(v, st) := get st in (v ++ lit " " ++ description, st).

Definition getRemoveGlobalFilter (st : statics) : bool * statics :=
  let '(g, st) := getInstance st in (_removeGlobalFilter g, st).

Definition setRemoveGlobalFilter (removeGlobalFilter : bool) (st : statics)
  : unit * statics :=
  let '(g, _) := getInstance st in
  (tt, Some (mkInstance (_globalFilter g) removeGlobalFilter)).

Definition removeAsSubstringFrom (description : jsstring) (st : statics)
  : jsstring * statics :=
  let '(globalFilter, st) := get st in
  (trim (replace description globalFilter []), st).

End GlobalFilter.

(** ** More sample data *)

Module MoreExamples.

Definition starItem : jsstring := lit "* [x] A task with an asterisk".

Definition dashItem : jsstring := lit "- [x] A finished task".

(** A note with the archive heading and one archived task. *)
Definition archiveNote : jsstring :=
  join Examples.NL
    [lit "# Project"; archiveHeading; lit "- [x] Earlier task"; [];
     lit "Closing remarks."].

(** A completed task of [notes.md] with the ToLogList action. *)
Definition toLogList : Store := Examples.completing "ToLogList".

Definition taskTag : jsstring := lit "#task".

Definition tagged : GlobalFilter.statics :=
  Some (GlobalFilter.mkInstance taskTag true).

(** A recurring task with the ToLogFile action, indented inside two block
    quotes, is completed. *)
Definition quotedToLogFile : Store :=
  Examples.sampleStore
    (Examples.sampleTask Examples.todo (lit "> >    ")
       (Examples.withAction "ToLogFile"))
    (Examples.sampleTask Examples.todo (lit "> >    ")
       (Examples.withAction "ToLogFile"))
    (Examples.sampleTask Examples.done (lit "> >    ")
       (Examples.withAction "ToLogFile")).

(** A list whose item has the chequered flag, one character of two code
    units, as its status symbol; and one whose item has a carriage return
    there. *)
Definition headingAndFlagItem : jsstring :=
  lit "heading" ++ Examples.NL ++ lit "- [" ++ FLAG ++ lit "] item".

Definition headingAndReturnItem : jsstring :=
  lit "heading" ++ Examples.NL ++ lit "- [" ++ [0xD%N] ++ lit "] item".

(** A text of two lines. *)
Definition twoItems : jsstring :=
  lit "- [-] new" ++ Examples.NL ++ lit "- [-] newer".

End MoreExamples.

(** * Properties *)

(** ** Strings *)

Section StringFacts.

Implicit Types s p t : jsstring.

Lemma substring_0_2 s : substring s 0 2 = take 2 s.
Proof.
  unfold substring, strlen.
  destruct s as [|a [|b s]]; try reflexivity.
  cbn [length].
  replace (Z.max 0 (Z.min 0 (Z.of_nat (S (S (length s)))))) with 0 by lia.
  replace (Z.max 0 (Z.min 2 (Z.of_nat (S (S (length s)))))) with 2 by lia.
  reflexivity.
Qed.

Lemma substringFrom_2 s : substringFrom s 2 = drop 2 s.
Proof.
  unfold substringFrom, substring, strlen.
  destruct s as [|a [|b s]]; try reflexivity.
  cbn [length].
  set (n := length s).
  replace (Z.max 0 (Z.min 2 (Z.of_nat (S (S n))))) with 2 by lia.
  replace (Z.max 0 (Z.min (Z.of_nat (S (S n))) (Z.of_nat (S (S n)))))
    with (Z.of_nat (S (S n))) by lia.
  replace (Z.min 2 (Z.of_nat (S (S n)))) with 2 by lia.
  replace (Z.max 2 (Z.of_nat (S (S n)))) with (Z.of_nat (S (S n))) by lia.
  replace (Z.to_nat (Z.of_nat (S (S n)) - 2)) with n by lia.
  change (Z.to_nat 2) with 2%nat. cbn [drop]. rewrite drop_0.
  apply take_ge. unfold n. lia.
Qed.

Lemma startsWith_app s p : startsWith (p ++ s) p = true.
Proof.
  induction p as [|a p IH]; [reflexivity|].
  cbn. rewrite N.eqb_refl. exact IH.
Qed.

Lemma startsWith_spec s p : startsWith s p = true <-> exists t, s = p ++ t.
Proof.
  revert s. induction p as [|a p IH]; intros s.
  - split; [intros _; exists s; reflexivity | reflexivity].
  - destruct s as [|b s]; cbn.
    + split; [discriminate | intros [t Ht]; discriminate].
    + rewrite andb_true_iff, N.eqb_eq, IH. split.
      * intros [-> [t ->]]. exists t. reflexivity.
      * intros [t Ht]. injection Ht as -> ->. split; [reflexivity | eauto].
Qed.

Lemma includes_spec s p :
  includes s p = true <-> exists t1 t2, s = t1 ++ p ++ t2.
Proof.
  induction s as [|c s IH]; cbn [includes].
  - rewrite orb_false_r, startsWith_spec. split.
    + intros [t Ht]. exists [], t. exact Ht.
    + intros [t1 [t2 Ht]]. destruct t1; [eauto | discriminate].
  - rewrite orb_true_iff, startsWith_spec, IH. split.
    + intros [[t Ht] | [t1 [t2 Ht]]].
      * exists [], t. exact Ht.
      * exists (c :: t1), t2. rewrite Ht. reflexivity.
    + intros [[|c' t1] [t2 Ht]].
      * left. eauto.
      * right. injection Ht as -> ->. eauto.
Qed.

Lemma trimStart_suffix s : exists t, s = t ++ trimStart s.
Proof.
  induction s as [|c s [t IH]]; [exists []; reflexivity|].
  cbn. destruct (isWhiteSpace c).
  - exists (c :: t). cbn. f_equal. exact IH.
  - exists []. reflexivity.
Qed.

Lemma trimStart_head s c t : trimStart s = c :: t -> isWhiteSpace c = false.
Proof.
  induction s as [|d s IH]; [discriminate|].
  cbn. destruct (isWhiteSpace d) eqn:Hd; [exact IH|].
  intros [= -> _]. exact Hd.
Qed.

Lemma trimStart_fixed s :
  match s with [] => True | c :: _ => isWhiteSpace c = false end ->
  trimStart s = s.
Proof. destruct s as [|c s]; [reflexivity|]. cbn. intros ->. reflexivity. Qed.

End StringFacts.

(** ** The line normalizer *)

Section Normalizer.

Implicit Types s t : jsstring.

Lemma lit_quote_marker : lit "> " = [0x3E; 0x20]%N.
Proof. reflexivity. Qed.

Lemma take_2_quote s :
  take 2 s = lit "> " <->
  exists s', s = 0x3E%N :: 0x20%N :: s'.
Proof.
  destruct s as [|a [|b s]]; cbn.
  - split; [discriminate | intros [? ?]; discriminate].
  - split; [discriminate | intros [? ?]; discriminate].
  - rewrite take_0. split.
    + intros [= -> ->]. eauto.
    + intros [s' [= -> -> _]]. reflexivity.
Qed.

(** The fuel given by [removeCalloutPrefixes] is enough: the loop stops by
    its own test. *)
Lemma removeCalloutPrefixes_loop_strip fuel s :
  (length s <= 2 * fuel)%nat ->
  removeCalloutPrefixes_loop fuel s = stripQuoteMarkers s.
Proof.
  revert s. induction fuel as [|fuel IH]; intros s Hlen.
  - destruct s; [reflexivity | cbn in Hlen; lia].
  - cbn [removeCalloutPrefixes_loop].
    rewrite substring_0_2, substringFrom_2.
    destruct (decide (take 2 s = lit "> ")) as [Hq | Hq].
    + apply take_2_quote in Hq as [s' ->].
      cbn [drop stripQuoteMarkers]. rewrite drop_0.
      change ((0x3E =? 0x3E)%N && (0x20 =? 0x20)%N) with true. cbn iota.
      apply IH. cbn in Hlen. lia.
    + destruct s as [|a [|b s]]; try reflexivity.
      cbn [stripQuoteMarkers].
      destruct ((a =? 0x3E)%N && (b =? 0x20)%N) eqn:Hab; [|reflexivity].
      apply andb_true_iff in Hab as [Ha Hb].
      apply N.eqb_eq in Ha, Hb. subst. exfalso. apply Hq. reflexivity.
Qed.

Lemma removeCalloutPrefixes_strip s :
  removeCalloutPrefixes s = stripQuoteMarkers s.
Proof. apply removeCalloutPrefixes_loop_strip. lia. Qed.

(** More rounds than the line is long change nothing. *)
Lemma removeCalloutPrefixes_fuel fuel s :
  (length s <= fuel)%nat ->
  removeCalloutPrefixes_loop fuel s = removeCalloutPrefixes s.
Proof.
  intros H. rewrite removeCalloutPrefixes_strip.
  apply removeCalloutPrefixes_loop_strip. lia.
Qed.

Lemma stripQuoteMarkers_no_quote s :
  startsWith (stripQuoteMarkers s) (lit "> ") = false.
Proof.
  induction s as [s IH] using (induction_ltof1 _ (@length N)).
  unfold ltof in IH.
  rewrite lit_quote_marker in *.
  destruct s as [|a [|b s]]; try reflexivity.
  - cbn. apply andb_false_r.
  - cbn [stripQuoteMarkers].
    destruct ((a =? 0x3E)%N && (b =? 0x20)%N) eqn:Hab.
    + apply IH. cbn. lia.
    + cbn [startsWith]. rewrite andb_true_r.
      rewrite (N.eqb_sym 0x3E a), (N.eqb_sym 0x20 b). exact Hab.
Qed.

Lemma stripQuoteMarkers_fixed s :
  startsWith s (lit "> ") = false -> stripQuoteMarkers s = s.
Proof.
  rewrite lit_quote_marker.
  destruct s as [|a [|b s]]; try reflexivity.
  cbn [startsWith stripQuoteMarkers].
  rewrite andb_true_r, (N.eqb_sym 0x3E a), (N.eqb_sym 0x20 b).
  intros ->. reflexivity.
Qed.

Lemma stripQuoteMarkers_suffix s : exists t, s = t ++ stripQuoteMarkers s.
Proof.
  induction s as [s IH] using (induction_ltof1 _ (@length N)).
  unfold ltof in IH.
  destruct s as [|a [|b s]]; try (exists []; reflexivity).
  cbn [stripQuoteMarkers].
  destruct ((a =? 0x3E)%N && (b =? 0x20)%N) eqn:Hab.
  - destruct (IH s) as [t Ht]; [cbn; lia|].
    exists (a :: b :: t). cbn. do 2 f_equal. exact Ht.
  - exists []. reflexivity.
Qed.

(** [removeCalloutPrefixes] leaves no leading ["> "]. *)
Lemma removeCalloutPrefixes_no_quote s :
  startsWith (removeCalloutPrefixes s) (lit "> ") = false.
Proof. rewrite removeCalloutPrefixes_strip. apply stripQuoteMarkers_no_quote. Qed.

(** [removeCalloutPrefixes] is idempotent. *)
Lemma removeCalloutPrefixes_idempotent s :
  removeCalloutPrefixes (removeCalloutPrefixes s) = removeCalloutPrefixes s.
Proof.
  rewrite !removeCalloutPrefixes_strip.
  apply stripQuoteMarkers_fixed, stripQuoteMarkers_no_quote.
Qed.

(** The normalizer keeps a suffix of the line: what it removes is a prefix,
    the text that remains is verbatim. *)
Lemma adjustLineForArchival_suffix s :
  exists t, s = t ++ adjustLineForArchival s.
Proof.
  unfold adjustLineForArchival. rewrite removeCalloutPrefixes_strip.
  destruct (trimStart_suffix s) as [t1 H1].
  destruct (stripQuoteMarkers_suffix (trimStart s)) as [t2 H2].
  exists (t1 ++ t2). rewrite <- app_assoc, <- H2. exact H1.
Qed.

(** A line without indentation and without a quote marker is returned as it
    is. *)
Lemma adjustLineForArchival_fixed s :
  match s with [] => True | c :: _ => isWhiteSpace c = false end ->
  startsWith s (lit "> ") = false ->
  adjustLineForArchival s = s.
Proof.
  intros Hw Hq. unfold adjustLineForArchival.
  rewrite (trimStart_fixed s Hw), removeCalloutPrefixes_strip.
  apply stripQuoteMarkers_fixed, Hq.
Qed.

Lemma stripQuoteMarkers_quoteMarkers k s :
  stripQuoteMarkers (quoteMarkers k ++ s) = stripQuoteMarkers s.
Proof. induction k as [|k IH]; [reflexivity | exact IH]. Qed.

Lemma adjustLineForArchival_quoteMarkers k s :
  adjustLineForArchival (quoteMarkers k ++ s) = match k with
                                                | O => adjustLineForArchival s
                                                | S _ => stripQuoteMarkers s
                                                end.
Proof.
  unfold adjustLineForArchival. destruct k as [|k]; [reflexivity|].
  rewrite removeCalloutPrefixes_strip.
  change (trimStart (quoteMarkers (S k) ++ s)) with (quoteMarkers (S k) ++ s).
  apply stripQuoteMarkers_quoteMarkers.
Qed.

(** A line made of quote markers only is reduced to the empty string. *)
Lemma adjustLineForArchival_only_quoteMarkers k :
  adjustLineForArchival (quoteMarkers k) = [].
Proof.
  rewrite <- (app_nil_r (quoteMarkers k)), adjustLineForArchival_quoteMarkers.
  destruct k; reflexivity.
Qed.

End Normalizer.

(** ** Regular expressions: the matcher against the language of a pattern *)

Section RegexFacts.

Implicit Types (r : regex) (s p t : jsstring) (c : N).

Lemma nullable_spec r : nullable r = true <-> lang r [].
Proof.
  induction r as [| | d | |r1 IH1 r2 IH2|r1 IH1 r2 IH2|r1 IH1]; cbn.
  - split; [discriminate | inversion 1].
  - split; [constructor | reflexivity].
  - split; [discriminate | inversion 1].
  - split; [discriminate | inversion 1].
  - rewrite andb_true_iff, IH1, IH2. split.
    + intros [H1 H2]. apply (lang_seq _ _ [] [] H1 H2).
    + inversion 1 as [| | |? ? s1 s2 H1 H2 E1 E2| | | |]; subst.
      apply app_eq_nil in E2 as [-> ->]. auto.
  - rewrite orb_true_iff, IH1, IH2. split.
    + intros [H | H]; [apply lang_alt_l | apply lang_alt_r]; exact H.
    + inversion 1; subst; auto.
  - split; [constructor | reflexivity].
Qed.

Lemma lang_star_cons_inv r c s :
  lang (Star r) (c :: s) ->
  exists s1 s2, s = s1 ++ s2 /\ lang r (c :: s1) /\ lang (Star r) s2.
Proof.
  intros H. remember (Star r) as r' eqn:Er. remember (c :: s) as w eqn:Ew.
  revert s Ew.
  induction H as [| | | | | | |r0 s1 s2 H1 _ H2 IH2]; try discriminate.
  injection Er as ->. intros s Ew.
  destruct s1 as [|c1 s1].
  - apply IH2; [reflexivity | exact Ew].
  - cbn in Ew. injection Ew as -> <-. eauto.
Qed.

Lemma deriv_spec r c s : lang (deriv c r) s <-> lang r (c :: s).
Proof.
  revert s.
  induction r as [| | d | |r1 IH1 r2 IH2|r1 IH1 r2 IH2|r1 IH1]; intros s; cbn.
  - split; inversion 1.
  - split; inversion 1.
  - destruct (N.eqb_spec c d) as [-> | Hne].
    + split; [inversion 1; constructor | inversion 1; constructor].
    + split; [inversion 1 | inversion 1; congruence].
  - destruct (isLineTerminator c) eqn:Hc.
    + split; [inversion 1 | inversion 1; congruence].
    + split; [inversion 1; constructor; exact Hc | inversion 1; constructor].
  - assert (Hseq : lang (Seq (deriv c r1) r2) s ->
                   lang (Seq r1 r2) (c :: s)).
    { inversion 1 as [| | |? ? s1 s2 H1 H2| | | |]; subst.
      apply IH1 in H1. apply (lang_seq _ _ (c :: s1) s2 H1 H2). }
    assert (Hinv : lang (Seq r1 r2) (c :: s) ->
                   lang (Seq (deriv c r1) r2) s \/
                   (lang r1 [] /\ lang r2 (c :: s))).
    { inversion 1 as [| | |? ? s1 s2 H1 H2 E1 E2| | | |]; subst.
      destruct s1 as [|c1 s1].
      - right. cbn in E2. subst. auto.
      - left. cbn in E2. injection E2 as -> <-.
        apply lang_seq; [apply IH1; exact H1 | exact H2]. }
    destruct (nullable r1) eqn:Hn.
    + split.
      * inversion 1; subst; [auto|].
        apply nullable_spec in Hn.
        apply (lang_seq _ _ [] (c :: s) Hn). apply IH2. assumption.
      * intros H. destruct (Hinv H) as [H' | [_ H']].
        -- apply lang_alt_l, H'.
        -- apply lang_alt_r, IH2, H'.
    + split; [exact Hseq|].
      intros H. destruct (Hinv H) as [H' | [H' _]]; [exact H'|].
      apply nullable_spec in H'. congruence.
  - split.
    + inversion 1; subst; [apply lang_alt_l, IH1 | apply lang_alt_r, IH2];
        assumption.
    + inversion 1; subst; [apply lang_alt_l, IH1 | apply lang_alt_r, IH2];
        assumption.
  - split.
    + inversion 1 as [| | |? ? s1 s2 H1 H2| | | |]; subst.
      apply IH1 in H1. apply (lang_star_cons _ (c :: s1) s2 H1 H2).
    + intros H. apply lang_star_cons_inv in H as [s1 [s2 [-> [H1 H2]]]].
      apply lang_seq; [apply IH1; exact H1 | exact H2].
Qed.

(** The matcher accepts exactly the strings with a prefix in the language
    of the pattern. *)
Lemma matchesPrefix_spec r s :
  matchesPrefix r s = true <-> exists p t, s = p ++ t /\ lang r p.
Proof.
  revert r. induction s as [|c s IH]; intros r; cbn [matchesPrefix].
  - rewrite orb_false_r, nullable_spec. split.
    + intros H. exists [], []. auto.
    + intros [p [t [E H]]]. symmetry in E.
      apply app_eq_nil in E as [-> _]. exact H.
  - rewrite orb_true_iff, nullable_spec, IH. split.
    + intros [H | [p [t [-> H]]]].
      * exists [], (c :: s). auto.
      * exists (c :: p), t. split; [reflexivity | apply deriv_spec, H].
    + intros [[|c' p] [t [E H]]].
      * left. exact H.
      * right. cbn in E. injection E as -> ->.
        exists p, t. split; [reflexivity | apply deriv_spec, H].
Qed.

Lemma lang_str w s : lang (str w) s <-> s = w.
Proof.
  revert s. induction w as [|c w IH]; intros s; cbn.
  - split; [inversion 1; reflexivity | intros ->; constructor].
  - split.
    + inversion 1 as [| | |? ? s1 s2 H1 H2| | | |]; subst.
      inversion H1; subst. apply IH in H2 as ->. reflexivity.
    + intros ->. apply (lang_seq _ _ [c] w); [constructor | apply IH; reflexivity].
Qed.

Lemma lang_star_str w s :
  w <> [] ->
  lang (Star (str w)) s <-> exists k, s = concat (replicate k w).
Proof.
  intros Hw. split.
  - intros H. remember (Star (str w)) as r eqn:Er.
    induction H as [| | | | | | |r0 s1 s2 H1 _ H2 IH2]; try discriminate.
    + exists O. reflexivity.
    + injection Er as ->. apply lang_str in H1 as ->.
      destruct (IH2 eq_refl) as [k ->]. exists (S k). reflexivity.
  - intros [k ->]. induction k as [|k IH]; cbn.
    + constructor.
    + apply lang_star_cons; [apply lang_str; reflexivity | exact IH].
Qed.

Lemma lang_star_chr c s :
  lang (Star (Chr c)) s <-> exists m, s = replicate m c.
Proof.
  split.
  - intros H. remember (Star (Chr c)) as r eqn:Er.
    induction H as [| | | | | | |r0 s1 s2 H1 _ H2 IH2]; try discriminate.
    + exists O. reflexivity.
    + injection Er as ->. inversion H1; subst.
      destruct (IH2 eq_refl) as [m ->]. exists (S m). reflexivity.
  - intros [m ->]. induction m as [|m IH]; cbn.
    + constructor.
    + apply (lang_star_cons _ [c]); [constructor | exact IH].
Qed.

End RegexFacts.

(** ** Lines that continue a task list *)

Section TaskLines.

Implicit Types (l s : jsstring).

Lemma isTaskLine_matchesPrefix l :
  isTaskLine l = matchesPrefix TASK_REGEX l.
Proof.
  unfold isTaskLine, searchAnchored.
  destruct (matchesPrefix TASK_REGEX l); reflexivity.
Qed.

Lemma lang_task_shape (w1 w3 : jsstring) (c2 c5 : N) l :
  w1 <> [] ->
  (exists p t, l = p ++ t /\
     lang (Seq (Star (str w1))
            (Seq (Star (Chr c2)) (Seq (str w3) (Seq Dot (Chr c5))))) p) <->
  exists k m c rest,
    l = concat (replicate k w1) ++ replicate m c2 ++ w3 ++ [c] ++ [c5] ++ rest
    /\ isLineTerminator c = false.
Proof.
  intros Hw1. split.
  - intros [p [t [-> H]]].
    inversion H as [| | |? ? p1 q1 H1 Hq1| | | |]; subst.
    inversion Hq1 as [| | |? ? p2 q2 H2 Hq2| | | |]; subst.
    inversion Hq2 as [| | |? ? p3 q3 H3 Hq3| | | |]; subst.
    inversion Hq3 as [| | |? ? p4 p5 H4 H5| | | |]; subst.
    apply lang_star_str in H1 as [k ->]; [|exact Hw1].
    apply lang_star_chr in H2 as [m ->].
    apply lang_str in H3 as ->.
    inversion H4 as [| |c Hc| | | | |]; subst.
    inversion H5; subst.
    exists k, m, c, t. split; [|exact Hc].
    rewrite <- !app_assoc. reflexivity.
  - intros [k [m [c [rest [-> Hc]]]]].
    exists (concat (replicate k w1) ++ replicate m c2 ++ w3 ++ [c] ++ [c5]), rest.
    split; [rewrite <- !app_assoc; reflexivity|].
    apply lang_seq; [apply lang_star_str; [exact Hw1 | eauto]|].
    apply lang_seq; [apply lang_star_chr; eauto|].
    apply lang_seq; [apply lang_str; reflexivity|].
    apply (lang_seq _ _ [c] [c5]); [constructor; exact Hc | constructor].
Qed.

(** The lines accepted by [TASK_REGEX]: any number of ["> "] markers, any
    number of spaces, then ["- ["], one code unit that is not a line
    terminator, and ["]"]. *)
Lemma isTaskLine_shape l :
  isTaskLine l = true <->
  exists k m c rest,
    l = quoteMarkers k ++ replicate m 0x20%N ++ lit "- [" ++ [c] ++ lit "]" ++ rest
    /\ isLineTerminator c = false.
Proof.
  rewrite isTaskLine_matchesPrefix, matchesPrefix_spec.
  apply (lang_task_shape (lit "> ") (lit "- [") 0x20%N 0x5D%N l).
  discriminate.
Qed.

End TaskLines.

(** ** Lines of a file *)

Section Lines.

Implicit Types (s l t : jsstring) (ls arr : list jsstring).

Lemma split_nonempty sep s : exists l ls, split sep s = l :: ls.
Proof.
  induction s as [|c s [l [ls IH]]]; cbn; [eauto|].
  destruct (N.eqb c sep); [eauto|]. rewrite IH. eauto.
Qed.

Lemma join_cons sep l ls :
  ls <> [] -> join sep (l :: ls) = l ++ sep ++ join sep ls.
Proof. destruct ls; [congruence | reflexivity]. Qed.

(** Splitting and joining again gives the text back. *)
Lemma join_split sep s : join [sep] (split sep s) = s.
Proof.
  induction s as [|c s IH]; [reflexivity|].
  cbn [split]. destruct (split_nonempty sep s) as [l [ls E]].
  rewrite E in *. destruct (N.eqb_spec c sep) as [-> | Hne].
  - rewrite join_cons by discriminate. rewrite IH. reflexivity.
  - destruct ls as [|l' ls].
    + cbn in *. congruence.
    + rewrite join_cons by discriminate.
      rewrite join_cons in IH by discriminate.
      rewrite <- IH. reflexivity.
Qed.

Lemma split_no_sep sep s : Forall (fun l => sep ∉ l) (split sep s).
Proof.
  induction s as [|c s IH]; cbn.
  - constructor; [apply not_elem_of_nil | constructor].
  - destruct (N.eqb_spec c sep) as [-> | Hne].
    + constructor; [apply not_elem_of_nil | exact IH].
    + destruct (split_nonempty sep s) as [l [ls E]]. rewrite E in *.
      inversion IH; subst.
      constructor; [|assumption].
      rewrite not_elem_of_cons. auto.
Qed.

Lemma split_app_sep sep l s :
  sep ∉ l -> split sep (l ++ sep :: s) = l :: split sep s.
Proof.
  induction l as [|c l IH]; intros Hl; cbn.
  - rewrite N.eqb_refl. reflexivity.
  - apply not_elem_of_cons in Hl as [Hc Hl].
    destruct (N.eqb_spec c sep) as [-> | _]; [congruence|].
    rewrite (IH Hl). reflexivity.
Qed.

Lemma split_no_sep_id sep l : sep ∉ l -> split sep l = [l].
Proof.
  induction l as [|c l IH]; intros Hl; [reflexivity|]. cbn.
  apply not_elem_of_cons in Hl as [Hc Hl].
  destruct (N.eqb_spec c sep) as [-> | _]; [congruence|].
  rewrite (IH Hl). reflexivity.
Qed.

(** Joining lines that hold no separator and splitting again gives the
    lines back. *)
Lemma split_join sep ls :
  ls <> [] -> Forall (fun l => sep ∉ l) ls ->
  split sep (join [sep] ls) = ls.
Proof.
  induction ls as [|l ls IH]; [congruence|]. intros _ Hall.
  inversion Hall as [|? ? Hl Hls]; subst.
  destruct ls as [|l' ls].
  - cbn. apply split_no_sep_id, Hl.
  - rewrite join_cons by discriminate. cbn [app].
    rewrite split_app_sep by exact Hl.
    rewrite IH; [reflexivity | discriminate | exact Hls].
Qed.

Lemma join_insert sep front x t after :
  join sep (front ++ (x ++ sep ++ t) :: after)
  = join sep (front ++ x :: t :: after).
Proof.
  induction front as [|a front IH].
  - cbn [app]. rewrite (join_cons sep x) by discriminate.
    destruct after as [|q after]; [reflexivity|].
    rewrite !join_cons by discriminate. rewrite <- !app_assoc. reflexivity.
  - cbn [app]. rewrite !join_cons by (destruct front; discriminate).
    rewrite IH. reflexivity.
Qed.

Lemma indexOfFrom_absent arr x i : x ∉ arr -> indexOfFrom arr x i = -1.
Proof.
  revert i. induction arr as [|y arr IH]; intros i Hx; [reflexivity|].
  apply not_elem_of_cons in Hx as [Hne Hx]. cbn.
  destruct (decide (y = x)); [congruence | apply IH, Hx].
Qed.

Lemma indexOfFrom_first before x after i :
  x ∉ before ->
  indexOfFrom (before ++ x :: after) x i = i + Z.of_nat (length before).
Proof.
  revert i. induction before as [|y before IH]; intros i Hx; cbn.
  - destruct (decide (x = x)); [lia | congruence].
  - apply not_elem_of_cons in Hx as [Hne Hx].
    destruct (decide (y = x)); [congruence|]. rewrite (IH _ Hx). lia.
Qed.

(** A line that occurs has a first occurrence. *)
Lemma elem_of_first_occurrence arr x :
  x ∈ arr -> exists before after, arr = before ++ x :: after /\ x ∉ before.
Proof.
  induction arr as [|y arr IH]; intros Hx; [inversion Hx|].
  destruct (decide (y = x)) as [-> | Hne].
  - exists [], arr. split; [reflexivity | apply not_elem_of_nil].
  - apply elem_of_cons in Hx as [-> | Hx]; [congruence|].
    destruct (IH Hx) as [before [after [-> Hb]]].
    exists (y :: before), after. split; [reflexivity|].
    rewrite not_elem_of_cons. auto.
Qed.

Lemma slice_drop front rest :
  slice (front ++ rest) (Z.of_nat (length front)) = rest.
Proof.
  unfold slice. rewrite length_app.
  destruct (Z.ltb_spec (Z.of_nat (length front)) 0) as [H | _]; [lia|].
  replace (Z.to_nat _) with (length front) by lia.
  apply drop_app_length.
Qed.

Lemma slice_0 arr : slice arr 0 = arr.
Proof. apply (slice_drop [] arr). Qed.

(** The cursor moves over the task lines that come first and stops. *)
Lemma advanceInsertionLine_block block after i :
  Forall (fun l => isTaskLine l = true) block ->
  match after with [] => True | l :: _ => isTaskLine l = false end ->
  advanceInsertionLine (block ++ after) i = i + Z.of_nat (length block).
Proof.
  intros Hblock Hafter. revert i.
  induction Hblock as [|l block Hl _ IH]; intros i.
  - cbn [app length]. destruct after as [|l after]; cbn; [lia|].
    unfold isTaskLine in Hafter. apply negb_false_iff in Hafter.
    rewrite Hafter. lia.
  - cbn [app advanceInsertionLine].
    unfold isTaskLine in Hl. apply negb_true_iff in Hl. rewrite Hl.
    rewrite IH. cbn [length]. lia.
Qed.

(** Every list of lines starts with a longest block of task lines. *)
Lemma task_block_span ls :
  exists block after,
    ls = block ++ after /\
    Forall (fun l => isTaskLine l = true) block /\
    match after with [] => True | l :: _ => isTaskLine l = false end.
Proof.
  induction ls as [|l ls [block [after [-> [Hb Ha]]]]].
  - exists [], []. split; [reflexivity | split; [constructor | exact I]].
  - destruct (isTaskLine l) eqn:Hl.
    + exists (l :: block), after.
      split; [reflexivity | split; [constructor; assumption | exact Ha]].
    + exists [], (l :: block ++ after).
      split; [reflexivity | split; [constructor | exact Hl]].
Qed.

Lemma appendAt_middle front x after suffix :
  appendAt (front ++ x :: after) (Z.of_nat (length front)) suffix
  = front ++ (x ++ suffix) :: after.
Proof.
  unfold appendAt.
  destruct (Z.ltb_spec (Z.of_nat (length front)) 0) as [H | _]; [lia|].
  rewrite length_app. cbn [length].
  destruct (Z.ltb_spec (Z.of_nat (length front))
              (Z.of_nat (length front + S (length after)))) as [_ | H]; [|lia].
  rewrite Nat2Z.id.
  replace (length front) with (length front + 0)%nat at 1 by lia.
  rewrite alter_app_r. reflexivity.
Qed.

End Lines.

(** ** [writeLineToListEnd] *)

Section WriteLineToListEnd.

Implicit Types (fileText headingLine textToAppend : jsstring).
Implicit Types (before block after : list jsstring).

Lemma writeLineToListEnd_steps fileText headingLine textToAppend :
  textToAppend <> [] -> headingLine <> [] ->
  writeLineToListEnd fileText headingLine textToAppend =
    let linesArray := split NEWLINE_UNIT fileText in
    let start := indexOf linesArray headingLine + 1 in
    let insertionLine := advanceInsertionLine (slice linesArray start) start in
    Ok (join [NEWLINE_UNIT]
          (appendAt linesArray (insertionLine - 1)
             ([NEWLINE_UNIT] ++ textToAppend))).
Proof.
  intros Ht Hh. unfold writeLineToListEnd, strlen.
  destruct textToAppend as [|c t]; [congruence|].
  cbn [length]. destruct (Z.eqb_spec (Z.of_nat (S (length t))) 0); [lia|].
  destruct (decide (headingLine = [])); [congruence | reflexivity].
Qed.

(** The heading is found: the text becomes the line after the block of task
    lines that follows the first occurrence of the heading. *)
Lemma writeLineToListEnd_found fileText headingLine textToAppend
    before block after :
  textToAppend <> [] -> headingLine <> [] ->
  split NEWLINE_UNIT fileText = before ++ headingLine :: block ++ after ->
  headingLine ∉ before ->
  Forall (fun l => isTaskLine l = true) block ->
  match after with [] => True | l :: _ => isTaskLine l = false end ->
  writeLineToListEnd fileText headingLine textToAppend =
    Ok (join [NEWLINE_UNIT]
          (before ++ headingLine :: block ++ textToAppend :: after)).
Proof.
  intros Ht Hh Hsplit Hbefore Hblock Hafter.
  rewrite writeLineToListEnd_steps by assumption. cbv zeta.
  rewrite Hsplit. unfold indexOf.
  rewrite indexOfFrom_first by exact Hbefore.
  replace (0 + Z.of_nat (length before) + 1)
    with (Z.of_nat (length (before ++ [headingLine])))
    by (rewrite length_app; cbn; lia).
  replace (before ++ headingLine :: block ++ after)
    with ((before ++ [headingLine]) ++ block ++ after)
    by (rewrite <- app_assoc; reflexivity).
  rewrite slice_drop.
  rewrite advanceInsertionLine_block by assumption.
  rewrite app_assoc.
  destruct (exists_last (l := (before ++ [headingLine]) ++ block))
    as [front [x Hfront]]; [destruct before; discriminate|].
  replace (Z.of_nat (length (before ++ [headingLine])) +
           Z.of_nat (length block) - 1)
    with (Z.of_nat (length front)).
  2:{ apply (f_equal (@length _)) in Hfront.
      rewrite !length_app in Hfront. cbn in Hfront.
      rewrite length_app. cbn. lia. }
  rewrite Hfront, <- app_assoc. change ([x] ++ after) with (x :: after).
  rewrite appendAt_middle, join_insert.
  f_equal. f_equal.
  replace (before ++ headingLine :: block ++ textToAppend :: after)
    with (((before ++ [headingLine]) ++ block) ++ textToAppend :: after)
    by (rewrite <- !app_assoc; reflexivity).
  rewrite Hfront, <- app_assoc. reflexivity.
Qed.

(** The heading is missing and the file starts with task lines: the cursor
    starts at line 0 and the text goes after these lines. *)
Lemma writeLineToListEnd_absent_after_block fileText headingLine textToAppend
    block after :
  textToAppend <> [] -> headingLine <> [] ->
  headingLine ∉ split NEWLINE_UNIT fileText ->
  split NEWLINE_UNIT fileText = block ++ after ->
  block <> [] ->
  Forall (fun l => isTaskLine l = true) block ->
  match after with [] => True | l :: _ => isTaskLine l = false end ->
  writeLineToListEnd fileText headingLine textToAppend =
    Ok (join [NEWLINE_UNIT] (block ++ textToAppend :: after)).
Proof.
  intros Ht Hh Habsent Hsplit Hne Hblock Hafter.
  rewrite writeLineToListEnd_steps by assumption. cbv zeta.
  unfold indexOf. rewrite indexOfFrom_absent by exact Habsent.
  rewrite Hsplit. change (-1 + 1) with 0. rewrite slice_0.
  rewrite advanceInsertionLine_block by assumption.
  destruct (exists_last Hne) as [front [x ->]].
  replace (0 + Z.of_nat (length (front ++ [x])) - 1)
    with (Z.of_nat (length front))
    by (rewrite length_app; cbn; lia).
  rewrite <- !app_assoc.
  change ([x] ++ after) with (x :: after).
  change ([x] ++ textToAppend :: after) with (x :: textToAppend :: after).
  rewrite appendAt_middle, join_insert. reflexivity.
Qed.

(** The heading is missing and the first line is no task line: the cursor
    stays at 0, the assignment goes to index -1 and the text is lost. *)
Lemma writeLineToListEnd_absent_unchanged fileText headingLine textToAppend :
  textToAppend <> [] -> headingLine <> [] ->
  headingLine ∉ split NEWLINE_UNIT fileText ->
  match split NEWLINE_UNIT fileText with
  | [] => True
  | l :: _ => isTaskLine l = false
  end ->
  writeLineToListEnd fileText headingLine textToAppend = Ok fileText.
Proof.
  intros Ht Hh Habsent Hfirst.
  rewrite writeLineToListEnd_steps by assumption. cbv zeta.
  unfold indexOf. rewrite indexOfFrom_absent by exact Habsent.
  change (-1 + 1) with 0. rewrite slice_0.
  rewrite (advanceInsertionLine_block [] _ _ (Forall_nil_2 _) Hfirst).
  cbn [length]. change (0 + Z.of_nat 0 - 1) with (-1).
  unfold appendAt. change (-1 <? 0) with true. cbv iota.
  rewrite join_split. reflexivity.
Qed.

End WriteLineToListEnd.

(** ** Removing the completed instance *)

Section Filtering.

Implicit Types (tasks front : list ref) (changed : ref).

Lemma returnWithoutCompletedInstance_snoc front changed :
  returnWithoutCompletedInstance (front ++ [changed]) changed
  = returnWithoutCompletedInstance front changed.
Proof.
  unfold returnWithoutCompletedInstance. rewrite filter_app.
  rewrite (filter_cons_False _ changed []) by (intros H; apply H; reflexivity).
  rewrite filter_nil. apply app_nil_r.
Qed.

Lemma returnWithoutCompletedInstance_fresh front changed :
  changed ∉ front -> returnWithoutCompletedInstance front changed = front.
Proof.
  unfold returnWithoutCompletedInstance.
  induction front as [|t front IH]; intros Hfresh; [reflexivity|].
  apply not_elem_of_cons in Hfresh as [Hne Hfresh].
  rewrite filter_cons_True by congruence. rewrite IH by exact Hfresh.
  reflexivity.
Qed.

Lemma returnWithoutCompletedInstance_elem tasks changed t :
  t ∈ returnWithoutCompletedInstance tasks changed <-> t <> changed /\ t ∈ tasks.
Proof.
  unfold returnWithoutCompletedInstance. rewrite list_elem_of_filter.
  reflexivity.
Qed.

Lemma returnWithoutCompletedInstance_sublist tasks changed :
  sublist (returnWithoutCompletedInstance tasks changed) tasks.
Proof. unfold returnWithoutCompletedInstance. apply sublist_filter. Qed.

End Filtering.

(** ** The branches of [handleOnCompletion] *)

Section Branches.

Variable appendToEndOfFile : jsstring -> jsstring -> jsstring.
Variable store : Store.
Variables (task changed : ref) (tasks : list ref) (toLogFilePath : jsstring).

Let taskString := description (store changed).
Let textToWrite := adjustLineForArchival (toFileLineString (store changed)).

Hypothesis tasks_last : last tasks = Some changed.

Lemma handleOnCompletion_empty :
  handleOnCompletion appendToEndOfFile store task [] toLogFilePath = ret [].
Proof. reflexivity. Qed.

(** The gate is closed. *)
Lemma handleOnCompletion_gate_closed :
  includes taskString ocTrigger = false \/
  type (status (store changed)) <> DONE \/
  type (status (store changed)) = type (status (store task)) ->
  handleOnCompletion appendToEndOfFile store task tasks toLogFilePath
  = ret tasks.
Proof.
  intros H. unfold handleOnCompletion. rewrite tasks_last.
  fold taskString.
  destruct H as [H | [H | H]].
  - rewrite H. reflexivity.
  - rewrite (bool_decide_eq_false_2 _ H), orb_true_r. reflexivity.
  - rewrite (bool_decide_eq_true_2 _ H), orb_true_r. reflexivity.
Qed.

Hypothesis gate_trigger : includes taskString ocTrigger = true.
Hypothesis gate_done : type (status (store changed)) = DONE.
Hypothesis gate_changed :
  type (status (store changed)) <> type (status (store task)).

Lemma handleOnCompletion_gate_open :
  handleOnCompletion appendToEndOfFile store task tasks toLogFilePath =
  if includes taskString (FLAG ++ lit " Delete")
  then ret (returnWithoutCompletedInstance tasks changed)
  else if includes taskString (FLAG ++ lit " ToLogFile")
  then ([FileWriterCall toLogFilePath
           (fun data => Ok (appendToEndOfFile data textToWrite))],
        returnWithoutCompletedInstance tasks changed)
  else if includes taskString (FLAG ++ lit " ToLogList")
  then ([FileWriterCall (path (store changed))
           (fun data => writeLineToListEnd data archiveHeading textToWrite)],
        returnWithoutCompletedInstance tasks changed)
  else if includes taskString (FLAG ++ lit " EndOfList")
  then ([FileWriterCall (path (store changed))
           (fun data => writeLineToListEnd data archiveHeading textToWrite)],
        returnWithoutCompletedInstance tasks changed)
  else ([ConsoleLog unknownActionMessage], tasks).
Proof.
  unfold handleOnCompletion. rewrite tasks_last. fold taskString.
  rewrite gate_trigger, (bool_decide_eq_true_2 _ gate_done),
    (bool_decide_eq_false_2 _ gate_changed).
  cbn [negb orb].
  repeat match goal with
         | |- context [includes taskString ?n] =>
             destruct (includes taskString n); [reflexivity|]
         end.
  reflexivity.
Qed.

End Branches.

(** ** [appendToEndOfFile] as modelled *)

Lemma appendToEndOfFile_empty textToAppend :
  FileWriter.appendToEndOfFile [] textToAppend
  = textToAppend ++ [NEWLINE_UNIT].
Proof. reflexivity. Qed.


(** * The claims *)

(** ** The gate *)

(** C1. Any original task of the same status type, whatever its description,
    leads to the same outcome; and the successor list is returned as it is,
    with no call made, when it is empty, or when the description of its last
    element lacks the space-padded trigger, or when the status type of its
    last element is not DONE, or when that type is the type of the original
    task. *)
Theorem handleOnCompletion_gate_noop
    (appendToEndOfFile : jsstring -> jsstring -> jsstring) (store : Store)
    (task task' : ref) (tasks : list ref) (toLogFilePath : jsstring) :
  type (status (store task')) = type (status (store task)) ->
  handleOnCompletion appendToEndOfFile store task' tasks toLogFilePath
  = handleOnCompletion appendToEndOfFile store task tasks toLogFilePath
  /\
  (tasks = [] \/
   (exists changed,
      last tasks = Some changed /\
      (includes (description (store changed)) ocTrigger = false \/
       type (status (store changed)) <> DONE \/
       type (status (store changed)) = type (status (store task)))) ->
   handleOnCompletion appendToEndOfFile store task tasks toLogFilePath
   = ret tasks).
Proof.
  intros Htype. split.
  - unfold handleOnCompletion. rewrite Htype. reflexivity.
  - intros [-> | [changed [Hlast Hclosed]]].
    + reflexivity.
    + apply handleOnCompletion_gate_closed with changed; assumption.
Qed.

Lemma handleOnCompletion_gate_noop_witness :
  handleOnCompletion FileWriter.appendToEndOfFile
    (Examples.starting "Delete") 1%nat [2%nat] Examples.archivePath
  = handleOnCompletion FileWriter.appendToEndOfFile
      (Examples.starting "Delete") 0%nat [2%nat] Examples.archivePath
  /\ handleOnCompletion FileWriter.appendToEndOfFile
       (Examples.starting "Delete") 0%nat [2%nat] Examples.archivePath
     = ret [2%nat].
Proof.
  destruct (handleOnCompletion_gate_noop FileWriter.appendToEndOfFile
              (Examples.starting "Delete") 0%nat 1%nat [2%nat]
              Examples.archivePath eq_refl) as [Hsame Hnoop].
  split; [exact Hsame|].
  apply Hnoop. right. exists 2%nat. split; [reflexivity|].
  right. left. discriminate.
Defined.

(** ** Delete *)

(** C2. When the gate is passed and the description of the last element
    holds the Delete trigger, no call is made and the result is the input
    without the changed task, the other elements as they were and in their
    order.  A list of one element gives the empty list; a list of two, the
    next occurrence being another object than the completed instance, gives
    the list of the first. *)
Theorem handleOnCompletion_Delete
    (appendToEndOfFile : jsstring -> jsstring -> jsstring) (store : Store)
    (task changed : ref) (tasks : list ref) (toLogFilePath : jsstring) :
  last tasks = Some changed ->
  includes (description (store changed)) ocTrigger = true ->
  type (status (store changed)) = DONE ->
  type (status (store changed)) <> type (status (store task)) ->
  includes (description (store changed)) (FLAG ++ lit " Delete") = true ->
  exists result,
    handleOnCompletion appendToEndOfFile store task tasks toLogFilePath
    = ([], result) /\
    result = filter (fun t => t <> changed) tasks /\
    sublist result tasks /\
    (forall t, t ∈ result <-> t <> changed /\ t ∈ tasks) /\
    (forall front, tasks = front ++ [changed] -> changed ∉ front ->
                   result = front) /\
    (tasks = [changed] -> result = []) /\
    (forall next, next <> changed -> tasks = [next; changed] ->
                  result = [next]).
Proof.
  intros Hlast Htrigger Hdone Hchanged Hdelete.
  exists (returnWithoutCompletedInstance tasks changed).
  split.
  { rewrite (handleOnCompletion_gate_open _ _ _ changed) by assumption.
    rewrite Hdelete. reflexivity. }
  split; [reflexivity|].
  split; [apply returnWithoutCompletedInstance_sublist|].
  split; [intros t; apply returnWithoutCompletedInstance_elem|].
  assert (Hfront : forall front, tasks = front ++ [changed] ->
                                 changed ∉ front ->
            returnWithoutCompletedInstance tasks changed = front).
  { intros front -> Hfresh.
    rewrite returnWithoutCompletedInstance_snoc.
    apply returnWithoutCompletedInstance_fresh, Hfresh. }
  split; [exact Hfront|]. split.
  - intros E. apply (Hfront []); [exact E | apply not_elem_of_nil].
  - intros next Hnext E. apply (Hfront [next]); [exact E|].
    rewrite not_elem_of_cons. split; [congruence | apply not_elem_of_nil].
Qed.

Lemma handleOnCompletion_Delete_witness :
  exists result,
    handleOnCompletion FileWriter.appendToEndOfFile
      (Examples.completing "Delete") 0%nat [1%nat; 2%nat] Examples.archivePath
    = ([], result) /\
    result = filter (fun t => t <> 2%nat) [1%nat; 2%nat] /\
    sublist result [1%nat; 2%nat] /\
    (forall t, t ∈ result <-> t <> 2%nat /\ t ∈ [1%nat; 2%nat]) /\
    (forall front, [1%nat; 2%nat] = front ++ [2%nat] -> 2%nat ∉ front ->
                   result = front) /\
    ([1%nat; 2%nat] = [2%nat] -> result = []) /\
    (forall next, next <> 2%nat -> [1%nat; 2%nat] = [next; 2%nat] ->
                  result = [next]).
Proof.
  apply (handleOnCompletion_Delete FileWriter.appendToEndOfFile
           (Examples.completing "Delete") 0%nat 2%nat [1%nat; 2%nat]
           Examples.archivePath).
  - reflexivity.
  - vm_compute. reflexivity.
  - reflexivity.
  - discriminate.
  - vm_compute. reflexivity.
Defined.

(** ** ToLogFile *)



(** C3. A completed task with the ToLogFile action whose line is indented
    inside two block quotes: the gate is passed, the writer is called once
    with the path of the log file and the list comes back without the
    changed task, but the text handed to [appendToEndOfFile], whatever that
    function is, is the line with its markers removed and its indentation
    left: it starts with whitespace.  With [appendToEndOfFile] as modelled,
    the empty log becomes that indented text and a newline. *)
Theorem handleOnCompletion_ToLogFile_indentation_left :
  toFileLineString (MoreExamples.quotedToLogFile 2%nat)
  = lit "> >    - [x] A recurring task with " ++ FLAG ++ lit " ToLogFile"
  /\
  (forall appendToEndOfFile : jsstring -> jsstring -> jsstring,
     handleOnCompletion appendToEndOfFile MoreExamples.quotedToLogFile
       0%nat [1%nat; 2%nat] Examples.archivePath
     = ([FileWriterCall Examples.archivePath
           (fun data =>
              Ok (appendToEndOfFile data
                    (lit "   - [x] A recurring task with " ++ FLAG
                       ++ lit " ToLogFile")))],
        [1%nat]))
  /\
  (exists updater,
     handleOnCompletion FileWriter.appendToEndOfFile
       MoreExamples.quotedToLogFile 0%nat [1%nat; 2%nat] Examples.archivePath
     = ([FileWriterCall Examples.archivePath updater], [1%nat]) /\
     updater []
     = Ok (lit "   - [x] A recurring task with " ++ FLAG ++ lit " ToLogFile"
             ++ [NEWLINE_UNIT]))
  /\
  (exists c rest,
     adjustLineForArchival
       (toFileLineString (MoreExamples.quotedToLogFile 2%nat)) = c :: rest /\
     isWhiteSpace c = true).
Proof.
  assert (Hline :
    adjustLineForArchival
      (toFileLineString (MoreExamples.quotedToLogFile 2%nat))
    = lit "   - [x] A recurring task with " ++ FLAG ++ lit " ToLogFile")
    by (vm_compute; reflexivity).
  assert (Hcall :
    forall appendToEndOfFile : jsstring -> jsstring -> jsstring,
      handleOnCompletion appendToEndOfFile MoreExamples.quotedToLogFile
        0%nat [1%nat; 2%nat] Examples.archivePath
      = ([FileWriterCall Examples.archivePath
            (fun data =>
               Ok (appendToEndOfFile data
                     (lit "   - [x] A recurring task with " ++ FLAG
                        ++ lit " ToLogFile")))],
         [1%nat])).
  { intros appendToEndOfFile.
    rewrite (handleOnCompletion_gate_open _ _ _ 2%nat);
      [| reflexivity | vm_compute; reflexivity | reflexivity | discriminate].
    replace (includes (description (MoreExamples.quotedToLogFile 2%nat))
               (FLAG ++ lit " Delete")) with false
      by (vm_compute; reflexivity).
    replace (includes (description (MoreExamples.quotedToLogFile 2%nat))
               (FLAG ++ lit " ToLogFile")) with true
      by (vm_compute; reflexivity).
    rewrite Hline. reflexivity. }
  split; [vm_compute; reflexivity|]. split; [exact Hcall|]. split.
  - eexists. split; [apply Hcall|]. vm_compute. reflexivity.
  - rewrite Hline.
    exists 0x20%N, (lit "  - [x] A recurring task with " ++ FLAG
                      ++ lit " ToLogFile").
    split; vm_compute; reflexivity.
Qed.

(** ** ToLogList and EndOfList *)

(** C9. Where the EndOfList branch fires, the outcome is the one of the
    ToLogList branch for a changed task of the same path and line: the list
    without the changed task, and one call of the writer with the path of
    the changed task and the updater that applies [writeLineToListEnd] under
    the heading [## Archived Tasks - Appended] to the normalized line. *)
Theorem handleOnCompletion_EndOfList_as_ToLogList
    (appendToEndOfFile : jsstring -> jsstring -> jsstring)
    (store store' : Store) (task changed : ref) (tasks : list ref)
    (toLogFilePath : jsstring) :
  last tasks = Some changed ->
  includes (description (store changed)) ocTrigger = true ->
  type (status (store changed)) = DONE ->
  type (status (store changed)) <> type (status (store task)) ->
  includes (description (store changed)) (FLAG ++ lit " Delete") = false ->
  includes (description (store changed)) (FLAG ++ lit " ToLogFile") = false ->
  includes (description (store changed)) (FLAG ++ lit " ToLogList") = false ->
  includes (description (store changed)) (FLAG ++ lit " EndOfList") = true ->
  includes (description (store' changed)) ocTrigger = true ->
  type (status (store' changed)) = DONE ->
  type (status (store' changed)) <> type (status (store' task)) ->
  includes (description (store' changed)) (FLAG ++ lit " Delete") = false ->
  includes (description (store' changed)) (FLAG ++ lit " ToLogFile") = false ->
  includes (description (store' changed)) (FLAG ++ lit " ToLogList") = true ->
  path (store' changed) = path (store changed) ->
  toFileLineString (store' changed) = toFileLineString (store changed) ->
  handleOnCompletion appendToEndOfFile store task tasks toLogFilePath
  = ([FileWriterCall (path (store changed))
        (fun data =>
           writeLineToListEnd data (lit "## Archived Tasks - Appended")
             (adjustLineForArchival (toFileLineString (store changed))))],
     filter (fun t => t <> changed) tasks)
  /\
  handleOnCompletion appendToEndOfFile store task tasks toLogFilePath
  = handleOnCompletion appendToEndOfFile store' task tasks toLogFilePath.
Proof.
  intros Hlast Htrigger Hdone Hchanged Hdelete Hlog Hlist Hend
         Htrigger' Hdone' Hchanged' Hdelete' Hlog' Hlist' Hpath Hline.
  rewrite (handleOnCompletion_gate_open _ store _ changed) by assumption.
  rewrite (handleOnCompletion_gate_open _ store' _ changed) by assumption.
  rewrite Hdelete, Hlog, Hlist, Hend, Hdelete', Hlog', Hlist', Hpath, Hline.
  split; reflexivity.
Qed.

Lemma handleOnCompletion_EndOfList_as_ToLogList_witness :
  handleOnCompletion FileWriter.appendToEndOfFile
    (Examples.completing "EndOfList") 0%nat [1%nat; 2%nat] Examples.archivePath
  = handleOnCompletion FileWriter.appendToEndOfFile
      (Examples.sampleStore
         (Examples.sampleTask Examples.todo []
            (Examples.withAction "ToLogList"))
         (Examples.sampleTask Examples.todo []
            (Examples.withAction "ToLogList"))
         {| status := Examples.done;
            description := Examples.withAction "ToLogList";
            path := lit "notes.md";
            toFileLineString :=
              lit "- [x] " ++ Examples.withAction "EndOfList" |})
      0%nat [1%nat; 2%nat] Examples.archivePath.
Proof.
  refine (proj2 (handleOnCompletion_EndOfList_as_ToLogList
                   FileWriter.appendToEndOfFile _ _ 0%nat 2%nat
                   [1%nat; 2%nat] Examples.archivePath
                   _ _ _ _ _ _ _ _ _ _ _ _ _ _ _ _));
    first [ discriminate | vm_compute; reflexivity ].
Defined.

(** ** The list that is returned *)

(** C10. Whatever the injected writer does, the list returned is the input
    list, or the input list without the elements identical to its last
    element; in both cases it is a sublist of the input: nothing is added,
    nothing is reordered.  The elements are references into a store that
    [handleOnCompletion] only reads, so no task is modified. *)
Theorem handleOnCompletion_result {W : Type}
    (writer : jsstring -> (jsstring -> Result jsstring) -> W -> W)
    (appendToEndOfFile : jsstring -> jsstring -> jsstring) (store : Store)
    (task : ref) (tasks : list ref) (toLogFilePath : jsstring) (w : W) :
  let result :=
    (handleOnCompletionWith writer appendToEndOfFile store task tasks
       toLogFilePath w).1 in
  (result = tasks \/
   exists changed,
     last tasks = Some changed /\
     result = filter (fun t => t <> changed) tasks /\
     (changed ∉ result) /\
     (forall t, t <> changed -> t ∈ tasks -> t ∈ result))
  /\ sublist result tasks
  /\ result
     = (handleOnCompletion appendToEndOfFile store task tasks toLogFilePath).2.
Proof.
  cbv zeta. unfold handleOnCompletionWith.
  destruct (handleOnCompletion appendToEndOfFile store task tasks
              toLogFilePath) as [events result] eqn:E.
  cbn [fst snd].
  assert (H : result = tasks \/
              exists changed, last tasks = Some changed /\
                result = returnWithoutCompletedInstance tasks changed).
  { unfold handleOnCompletion in E.
    destruct (last tasks) as [changed|] eqn:Hlast.
    - repeat match type of E with
             | (if ?b then _ else _) = _ => destruct b
             end;
        injection E as _ <-; eauto.
    - injection E as _ <-. auto. }
  split; [|split; [|reflexivity]].
  - destruct H as [H | [changed [Hlast ->]]]; [auto|].
    right. exists changed. split; [exact Hlast|]. split; [reflexivity|].
    split.
    + rewrite returnWithoutCompletedInstance_elem. intros [Hne _]. congruence.
    + intros t Hne Ht. apply returnWithoutCompletedInstance_elem. auto.
  - destruct H as [-> | [changed [_ ->]]].
    + reflexivity.
    + apply returnWithoutCompletedInstance_sublist.
Qed.

(** ** Insertion at the end of a list *)

(** C4, as first stated: an item whose status symbol is one character of
    two code units, or a carriage return, is not taken for an item of the
    list, and the text is put in before it; and a text of two lines gives
    two new lines. *)
Lemma writeLineToListEnd_any_char_one_line_fails :
  writeLineToListEnd MoreExamples.headingAndFlagItem (lit "heading")
    (lit "- [-] new")
  = Ok (lit "heading" ++ Examples.NL ++ lit "- [-] new" ++ Examples.NL
          ++ lit "- [" ++ FLAG ++ lit "] item")
  /\
  writeLineToListEnd MoreExamples.headingAndFlagItem (lit "heading")
    (lit "- [-] new")
  <> Ok (lit "heading" ++ Examples.NL ++ lit "- [" ++ FLAG ++ lit "] item"
           ++ Examples.NL ++ lit "- [-] new")
  /\
  writeLineToListEnd MoreExamples.headingAndReturnItem (lit "heading")
    (lit "- [-] new")
  = Ok (lit "heading" ++ Examples.NL ++ lit "- [-] new" ++ Examples.NL
          ++ lit "- [" ++ [0xD%N] ++ lit "] item")
  /\
  exists output,
    writeLineToListEnd Examples.headingAndItem (lit "heading")
      MoreExamples.twoItems = Ok output /\
    split NEWLINE_UNIT Examples.headingAndItem
    = [lit "heading"; lit "- [ ] item"] /\
    split NEWLINE_UNIT output
    = [lit "heading"; lit "- [ ] item"; lit "- [-] new"; lit "- [-] newer"].
Proof.
  split; [vm_compute; reflexivity|].
  split; [vm_compute; discriminate|].
  split; [vm_compute; reflexivity|].
  eexists. split; [vm_compute; reflexivity|].
  split; vm_compute; reflexivity.
Qed.

(** C4. When the heading is a line of the file, and neither the heading nor
    the text is empty, the lines of the file split into the lines before the
    first occurrence of the heading, the heading, the block of lines that
    follows it and have the shape of a list item (any number of ["> "]
    markers, any number of spaces, ["- ["], one code unit that is no line
    terminator, ["]"]), and the rest, which is empty or starts with a line
    that has not that shape; the output is these lines, unchanged and in
    order, with the text between the block and the rest.  When the text
    holds no newline, the lines of the output are the lines of the file and
    this one new line. *)
Theorem writeLineToListEnd_after_list_items
    (fileText headingLine textToAppend : jsstring) :
  textToAppend <> [] ->
  headingLine <> [] ->
  headingLine ∈ split NEWLINE_UNIT fileText ->
  exists before block after,
    split NEWLINE_UNIT fileText = before ++ headingLine :: block ++ after /\
    (headingLine ∉ before) /\
    Forall listItemShaped block /\
    match after with [] => True | l :: _ => ~ listItemShaped l end /\
    writeLineToListEnd fileText headingLine textToAppend
    = Ok (join [NEWLINE_UNIT]
            (before ++ headingLine :: block ++ textToAppend :: after)) /\
    (NEWLINE_UNIT ∉ textToAppend ->
     forall output,
       writeLineToListEnd fileText headingLine textToAppend = Ok output ->
       split NEWLINE_UNIT output
       = before ++ headingLine :: block ++ textToAppend :: after).
Proof.
  intros Htext Hheading Hin.
  destruct (elem_of_first_occurrence _ _ Hin) as [before [rest [Hsplit Hb]]].
  destruct (task_block_span rest) as [block [after [-> [Hblock Hafter]]]].
  exists before, block, after.
  pose proof (writeLineToListEnd_found fileText headingLine textToAppend
                before block after Htext Hheading Hsplit Hb Hblock Hafter)
    as Hout.
  split; [exact Hsplit|]. split; [exact Hb|]. split.
  { eapply Forall_impl; [exact Hblock|].
    intros l Hl. apply isTaskLine_shape, Hl. }
  split.
  { destruct after as [|l after]; [exact I|].
    intros Hshape. apply isTaskLine_shape in Hshape. congruence. }
  split; [exact Hout|].
  intros Hnl output E. rewrite Hout in E. injection E as <-.
  apply split_join; [destruct before; discriminate|].
  pose proof (split_no_sep NEWLINE_UNIT fileText) as Hall.
  rewrite Hsplit in Hall.
  apply Forall_app in Hall as [Hall1 Hall2].
  apply Forall_cons in Hall2 as [Hh Hall2].
  apply Forall_app in Hall2 as [Hall2 Hall3].
  apply Forall_app. split; [exact Hall1|].
  apply Forall_cons. split; [exact Hh|].
  apply Forall_app. split; [exact Hall2|].
  apply Forall_cons. split; [exact Hnl | exact Hall3].
Qed.

Lemma writeLineToListEnd_after_list_items_witness :
  writeLineToListEnd Examples.headingAndItem (lit "heading") (lit "- [-] new")
  = Ok (lit "heading" ++ Examples.NL ++ lit "- [ ] item" ++ Examples.NL
          ++ lit "- [-] new")
  /\
  split NEWLINE_UNIT
    (lit "heading" ++ Examples.NL ++ lit "- [ ] item" ++ Examples.NL
       ++ lit "- [-] new")
  = [lit "heading"; lit "- [ ] item"; lit "- [-] new"].
Proof.
  destruct (writeLineToListEnd_after_list_items Examples.headingAndItem
              (lit "heading") (lit "- [-] new"))
    as [before [block [after [Hsplit [Hb [Hblock [Hafter [Hout Hlines]]]]]]]].
  - discriminate.
  - discriminate.
  - vm_compute. apply list_elem_of_here.
  - change (split NEWLINE_UNIT Examples.headingAndItem)
      with ([] ++ lit "heading" :: [lit "- [ ] item"]) in Hsplit.
    assert (Hitem : listItemShaped (lit "- [ ] item")).
    { exists O, O, 0x20%N, (lit " item"). split; reflexivity. }
    assert (Hparts : before = [] /\ block = [lit "- [ ] item"] /\ after = []).
    { destruct before as [|b before].
      - split; [reflexivity|]. cbn [app] in Hsplit.
        injection Hsplit as Hrest.
        destruct block as [|x block].
        + cbn [app] in Hrest. subst after. exfalso. apply Hafter, Hitem.
        + cbn [app] in Hrest. injection Hrest as <- Hnil.
          symmetry in Hnil. apply app_eq_nil in Hnil as [-> ->].
          split; reflexivity.
      - exfalso. cbn [app] in Hsplit. injection Hsplit as <- _.
        apply Hb, list_elem_of_here. }
    destruct Hparts as [-> [-> ->]].
    split; [exact Hout|].
    apply (Hlines); [|exact Hout].
    intros H. apply list_elem_of_In in H. vm_compute in H.
    repeat destruct H as [H | H]; try discriminate H. exact H.
Defined.

(** The example of the spec: the new item follows the item of the list. *)
Example writeLineToListEnd_heading_and_item :
  writeLineToListEnd Examples.headingAndItem (lit "heading") (lit "- [-] new")
  = Ok (lit "heading" ++ Examples.NL ++ lit "- [ ] item" ++ Examples.NL
          ++ lit "- [-] new").
Proof. vm_compute. reflexivity. Qed.

(** The placement does not depend on what follows the list, nor on the
    indentation or the quotation of its items. *)
Example writeLineToListEnd_placement :
  Forall (fun items =>
    Forall (fun rest =>
      writeLineToListEnd (Examples.noteWithList items rest)
        (lit "## MY TASK LIST") Examples.completedItem
      = Ok (Examples.noteWithList (items ++ [Examples.completedItem]) rest))
      Examples.continuations)
    Examples.lists.
Proof. repeat constructor. Qed.

(** C5. A file without the heading whose first line is not a task line:
    the cursor starts at line 0 and stays there, the text is assigned to
    index -1 of the array of lines, and the file comes back without the
    text instead of with the text as its first line. *)
Theorem writeLineToListEnd_heading_absent_text_lost :
  ~ lit "## Archived Tasks - Appended" ∈ split NEWLINE_UNIT Examples.projectNote
  /\ indexOf (split NEWLINE_UNIT Examples.projectNote)
       (lit "## Archived Tasks - Appended") + 1 = 0
  /\ writeLineToListEnd Examples.projectNote
       (lit "## Archived Tasks - Appended") (lit "- [x] Done task")
     = Ok Examples.projectNote
  /\ writeLineToListEnd Examples.projectNote
       (lit "## Archived Tasks - Appended") (lit "- [x] Done task")
     <> Ok (lit "- [x] Done task" ++ Examples.NL ++ Examples.projectNote).
Proof.
  split; [|split; [|split]].
  - intros H. apply list_elem_of_In in H. vm_compute in H.
    repeat destruct H as [H | H]; try discriminate H. exact H.
  - vm_compute. reflexivity.
  - vm_compute. reflexivity.
  - vm_compute. discriminate.
Qed.

(** C6. An empty text gives the file back, whatever the heading; an empty
    heading with a text that is not empty throws. *)
Theorem writeLineToListEnd_edge_contract
    (fileText headingLine textToAppend : jsstring) :
  writeLineToListEnd fileText headingLine [] = Ok fileText /\
  (textToAppend <> [] ->
   writeLineToListEnd fileText [] textToAppend = Throw emptyHeadingMessage).
Proof.
  split; [reflexivity|].
  intros Htext. unfold writeLineToListEnd, strlen.
  destruct textToAppend as [|c t]; [congruence|].
  cbn [length]. destruct (Z.eqb_spec (Z.of_nat (S (length t))) 0); [lia|].
  reflexivity.
Qed.

Lemma writeLineToListEnd_edge_contract_witness :
  writeLineToListEnd Examples.headingAndItem (lit "heading") []
  = Ok Examples.headingAndItem /\
  writeLineToListEnd Examples.headingAndItem [] (lit "- [-] new")
  = Throw emptyHeadingMessage.
Proof.
  destruct (writeLineToListEnd_edge_contract Examples.headingAndItem
              (lit "heading") (lit "- [-] new")) as [Hnoop Hthrow].
  split; [exact Hnoop | apply Hthrow; discriminate].
Defined.

(** C6, as first stated: with an empty heading and an empty text nothing is
    thrown, the file is returned. *)
Lemma writeLineToListEnd_empty_heading_empty_text :
  writeLineToListEnd Examples.headingAndItem [] []
  = Ok Examples.headingAndItem /\
  ~ (exists message,
       writeLineToListEnd Examples.headingAndItem [] [] = Throw message).
Proof.
  split; [reflexivity|]. intros [message E]. discriminate E.
Qed.

(** ** The line normalizer *)

(** C7. The line of a task that is indented inside a block quote: the
    leading whitespace is trimmed first, of which there is none, then the
    quote markers are removed, and the indentation that followed them is
    left at the start of the result. *)
Theorem adjustLineForArchival_indentation_left :
  trimStart Examples.quotedIndentedLine = Examples.quotedIndentedLine /\
  adjustLineForArchival Examples.quotedIndentedLine
  = lit "   - [ ] An INDENTED incomplete task" /\
  exists c rest,
    adjustLineForArchival Examples.quotedIndentedLine = c :: rest /\
    isWhiteSpace c = true.
Proof.
  split; [reflexivity|]. split; [vm_compute; reflexivity|].
  exists 0x20%N, (lit "  - [ ] An INDENTED incomplete task").
  split; vm_compute; reflexivity.
Qed.

(** C8. On the same line the normalizer is not idempotent: the second
    application trims the indentation that the first one left. *)
Theorem adjustLineForArchival_twice :
  adjustLineForArchival Examples.quotedIndentedLine
  = lit "   - [ ] An INDENTED incomplete task" /\
  adjustLineForArchival (adjustLineForArchival Examples.quotedIndentedLine)
  = lit "- [ ] An INDENTED incomplete task" /\
  adjustLineForArchival (adjustLineForArchival Examples.quotedIndentedLine)
  <> adjustLineForArchival Examples.quotedIndentedLine.
Proof.
  split; [vm_compute; reflexivity|]. split; [vm_compute; reflexivity|].
  vm_compute. discriminate.
Qed.

(** * Further properties *)

(** ** The line normalizer, completed *)

Section NormalizerMore.

Implicit Types s t ws : jsstring.

Lemma trimStart_decomp s :
  exists ws, s = ws ++ trimStart s /\ Forall (fun c => isWhiteSpace c = true) ws.
Proof.
  induction s as [|c s [ws [IH Hws]]]; [exists []; split; [reflexivity | constructor]|].
  cbn. destruct (isWhiteSpace c) eqn:Hc.
  - exists (c :: ws). split; [cbn; f_equal; exact IH | constructor; assumption].
  - exists []. split; [reflexivity | constructor].
Qed.

Lemma stripQuoteMarkers_decomp s :
  exists k, s = quoteMarkers k ++ stripQuoteMarkers s.
Proof.
  induction s as [s IH] using (induction_ltof1 _ (@length N)).
  unfold ltof in IH.
  destruct s as [|a [|b s]]; try (exists O; reflexivity).
  cbn [stripQuoteMarkers].
  destruct ((a =? 0x3E)%N && (b =? 0x20)%N) eqn:Hab.
  - apply andb_true_iff in Hab as [Ha Hb].
    apply N.eqb_eq in Ha, Hb. subst.
    destruct (IH s) as [k Hk]; [cbn; lia|].
    exists (S k). change (quoteMarkers (S k)) with (lit "> " ++ quoteMarkers k).
    rewrite lit_quote_marker. cbn. do 2 f_equal. exact Hk.
  - exists O. reflexivity.
Qed.

Lemma length_trimStart s : (length (trimStart s) <= length s)%nat.
Proof.
  destruct (trimStart_decomp s) as [ws [E _]].
  rewrite E at 2. rewrite length_app. lia.
Qed.

Lemma length_adjustLineForArchival s :
  (length (adjustLineForArchival s) <= length s)%nat.
Proof.
  destruct (adjustLineForArchival_suffix s) as [t E].
  rewrite E at 2. rewrite length_app. lia.
Qed.

Lemma startsWith_quote_head s c t :
  s = c :: t -> isWhiteSpace c = true -> startsWith s (lit "> ") = false.
Proof.
  intros -> Hc. rewrite lit_quote_marker. cbn [startsWith].
  destruct (N.eqb_spec 0x3E c) as [<- | _]; [discriminate Hc | reflexivity].
Qed.

(** X1. [removeCalloutPrefixes] removes the leading quote markers, all of
    them and nothing else: the line is some markers followed by the result,
    the result starts with no marker, and it is the only remainder of that
    kind. *)
Theorem removeCalloutPrefixes_exact s :
  (exists k, s = quoteMarkers k ++ removeCalloutPrefixes s) /\
  startsWith (removeCalloutPrefixes s) (lit "> ") = false /\
  (forall k t, s = quoteMarkers k ++ t -> startsWith t (lit "> ") = false ->
               t = removeCalloutPrefixes s).
Proof.
  rewrite removeCalloutPrefixes_strip. split; [|split].
  - apply stripQuoteMarkers_decomp.
  - apply stripQuoteMarkers_no_quote.
  - intros k t -> Ht. rewrite stripQuoteMarkers_quoteMarkers.
    symmetry. apply stripQuoteMarkers_fixed, Ht.
Qed.

(** X2. [removeCalloutPrefixes] is idempotent and never makes a line
    longer. *)
Theorem removeCalloutPrefixes_twice s :
  removeCalloutPrefixes (removeCalloutPrefixes s) = removeCalloutPrefixes s /\
  (length (removeCalloutPrefixes s) <= length s)%nat.
Proof.
  rewrite !removeCalloutPrefixes_strip. split.
  - apply stripQuoteMarkers_fixed, stripQuoteMarkers_no_quote.
  - destruct (stripQuoteMarkers_suffix s) as [t E].
    rewrite E at 2. rewrite length_app. lia.
Qed.

(** X3. [adjustLineForArchival] removes a prefix made of whitespace followed
    by quote markers and keeps the rest of the line as it is.  The result
    never starts with a quote marker; it starts with whitespace only if a
    quote marker was removed in front of it. *)
Theorem adjustLineForArchival_exact s :
  exists ws k,
    s = ws ++ quoteMarkers k ++ adjustLineForArchival s /\
    Forall (fun c => isWhiteSpace c = true) ws /\
    startsWith (adjustLineForArchival s) (lit "> ") = false /\
    (forall c t, adjustLineForArchival s = c :: t -> isWhiteSpace c = true ->
                 (0 < k)%nat).
Proof.
  unfold adjustLineForArchival. rewrite removeCalloutPrefixes_strip.
  destruct (trimStart_decomp s) as [ws [Hs Hws]].
  destruct (stripQuoteMarkers_decomp (trimStart s)) as [k Hk].
  exists ws, k. split; [rewrite <- Hk; exact Hs|].
  split; [exact Hws|]. split; [apply stripQuoteMarkers_no_quote|].
  intros c t E Hc. destruct k as [|k]; [|lia].
  cbn in Hk. rewrite <- Hk in E.
  rewrite (trimStart_head _ _ _ E) in Hc. discriminate Hc.
Qed.

(** X4. A second application of [adjustLineForArchival] changes nothing
    exactly when the result of the first does not start with whitespace. *)
Theorem adjustLineForArchival_idempotent_iff s :
  adjustLineForArchival (adjustLineForArchival s) = adjustLineForArchival s
  <->
  match adjustLineForArchival s with
  | [] => True
  | c :: _ => isWhiteSpace c = false
  end.
Proof.
  split.
  - intros Hfix. destruct (adjustLineForArchival s) as [|c t] eqn:E; [exact I|].
    destruct (isWhiteSpace c) eqn:Hc; [exfalso | reflexivity].
    pose proof (length_adjustLineForArchival (trimStart t)) as H1.
    pose proof (length_trimStart t) as H2.
    assert (H3 : adjustLineForArchival (c :: t)
                 = adjustLineForArchival (trimStart t)).
    { unfold adjustLineForArchival at 1 2.
      cbn [trimStart]. rewrite Hc.
      f_equal. symmetry. apply trimStart_fixed.
      destruct (trimStart t) as [|d u] eqn:Et; [exact I|].
      apply (trimStart_head _ _ _ Et). }
    rewrite H3 in Hfix. apply (f_equal (@length N)) in Hfix.
    cbn [length] in Hfix. lia.
  - intros Hhead. apply adjustLineForArchival_fixed; [exact Hhead|].
    unfold adjustLineForArchival. apply removeCalloutPrefixes_no_quote.
Qed.

End NormalizerMore.

(** ** The normalizer and the lines of a task list *)

Section NormalizedTaskLines.

Implicit Types l s t rest : jsstring.

Lemma lit_checkbox_open : lit "- [" = [0x2D; 0x20; 0x5B]%N.
Proof. reflexivity. Qed.

Lemma trimStart_spaces m t :
  trimStart (replicate m 0x20%N ++ t) = trimStart t.
Proof. induction m as [|m IH]; [reflexivity | exact IH]. Qed.

Lemma startsWith_quote_spaces m c rest :
  startsWith (replicate m 0x20%N ++ lit "- [" ++ [c] ++ lit "]" ++ rest)
    (lit "> ") = false.
Proof. destruct m; reflexivity. Qed.

(** A line that starts with the checkbox is left as it is. *)
Lemma adjustLineForArchival_checkbox c rest :
  adjustLineForArchival (lit "- [" ++ [c] ++ lit "]" ++ rest)
  = lit "- [" ++ [c] ++ lit "]" ++ rest.
Proof. apply adjustLineForArchival_fixed; reflexivity. Qed.

(** What the normalizer makes of a task line. *)
Lemma adjustLineForArchival_task_line k m c rest :
  adjustLineForArchival
    (quoteMarkers k ++ replicate m 0x20%N ++ lit "- [" ++ [c] ++ lit "]" ++ rest)
  = match k with
    | O => lit "- [" ++ [c] ++ lit "]" ++ rest
    | S _ => replicate m 0x20%N ++ lit "- [" ++ [c] ++ lit "]" ++ rest
    end.
Proof.
  rewrite adjustLineForArchival_quoteMarkers. destruct k as [|k].
  - unfold adjustLineForArchival. rewrite trimStart_spaces.
    apply adjustLineForArchival_checkbox.
  - apply stripQuoteMarkers_fixed, startsWith_quote_spaces.
Qed.

(** X5. The normalized form of a line of a task list is again such a
    line. *)
Theorem adjustLineForArchival_keeps_task_line l :
  isTaskLine l = true -> isTaskLine (adjustLineForArchival l) = true.
Proof.
  intros H. apply isTaskLine_shape in H as [k [m [c [rest [-> Hc]]]]].
  rewrite adjustLineForArchival_task_line. apply isTaskLine_shape.
  destruct k as [|k].
  - exists O, O, c, rest. split; [reflexivity | exact Hc].
  - exists O, m, c, rest. split; [reflexivity | exact Hc].
Qed.

Lemma adjustLineForArchival_keeps_task_line_witness :
  isTaskLine Examples.quotedIndentedLine = true /\
  isTaskLine (adjustLineForArchival Examples.quotedIndentedLine) = true.
Proof.
  split; [reflexivity|].
  apply (adjustLineForArchival_keeps_task_line Examples.quotedIndentedLine).
  reflexivity.
Defined.

End NormalizedTaskLines.

(** ** [TASK_REGEX] *)

(** X6. The search for [TASK_REGEX] in a line gives 0 or -1; it gives 0
    exactly for the lines made of any number of ["> "] markers, any number of
    spaces, ["- ["], one code unit that is no line terminator, ["]"], and
    anything after that. *)
Theorem TASK_REGEX_search (l : jsstring) :
  (searchAnchored TASK_REGEX l = 0 \/ searchAnchored TASK_REGEX l = -1) /\
  (searchAnchored TASK_REGEX l = 0 <->
   exists k m c rest,
     l = quoteMarkers k ++ replicate m 0x20%N ++ lit "- [" ++ [c] ++ lit "]"
           ++ rest
     /\ isLineTerminator c = false).
Proof.
  rewrite <- isTaskLine_shape, isTaskLine_matchesPrefix.
  unfold searchAnchored. destruct (matchesPrefix TASK_REGEX l).
  - split; [left; reflexivity | split; reflexivity].
  - split; [right; reflexivity | split; discriminate].
Qed.

(** ** [writeLineToListEnd] on every file *)

Section WriteLineToListEndMore.

Implicit Types (fileText headingLine textToAppend : jsstring).
Implicit Types (before block after front : list jsstring).

Lemma length_join_insert sep front x t after :
  length (join sep (front ++ x :: t :: after))
  = (length (join sep (front ++ x :: after)) + length sep + length t)%nat.
Proof.
  rewrite <- join_insert.
  induction front as [|a front IH].
  - cbn [app]. destruct after as [|q after].
    + cbn [join]. rewrite !length_app. lia.
    + rewrite (join_cons sep (x ++ sep ++ t)), (join_cons sep x)
        by discriminate.
      rewrite !length_app. lia.
  - cbn [app].
    rewrite (join_cons sep a (front ++ (x ++ sep ++ t) :: after)),
      (join_cons sep a (front ++ x :: after))
      by (destruct front; discriminate).
    rewrite !length_app, IH. lia.
Qed.

(** The two ways in which a call with a heading and a text can end. *)
Lemma writeLineToListEnd_cases fileText headingLine textToAppend :
  textToAppend <> [] -> headingLine <> [] ->
  (exists front x after,
     split NEWLINE_UNIT fileText = front ++ x :: after /\
     writeLineToListEnd fileText headingLine textToAppend
     = Ok (join [NEWLINE_UNIT] (front ++ x :: textToAppend :: after)))
  \/
  ((headingLine ∉ split NEWLINE_UNIT fileText) /\
   match split NEWLINE_UNIT fileText with
   | [] => True
   | l :: _ => isTaskLine l = false
   end /\
   writeLineToListEnd fileText headingLine textToAppend = Ok fileText).
Proof.
  intros Ht Hh.
  destruct (decide (headingLine ∈ split NEWLINE_UNIT fileText)) as [Hin | Hout].
  - left.
    destruct (elem_of_first_occurrence _ _ Hin) as [before [rest [Hsplit Hb]]].
    destruct (task_block_span rest) as [block [after [-> [Hblock Hafter]]]].
    destruct (exists_last (l := before ++ headingLine :: block))
      as [front [x Hfront]]; [destruct before; discriminate|].
    exists front, x, after. split.
    + rewrite Hsplit.
      replace (before ++ headingLine :: block ++ after)
        with ((before ++ headingLine :: block) ++ after)
        by (rewrite <- app_assoc; reflexivity).
      rewrite Hfront, <- app_assoc. reflexivity.
    + rewrite (writeLineToListEnd_found _ _ _ before block after)
        by assumption.
      replace (before ++ headingLine :: block ++ textToAppend :: after)
        with ((before ++ headingLine :: block) ++ textToAppend :: after)
        by (rewrite <- app_assoc; reflexivity).
      rewrite Hfront, <- app_assoc. reflexivity.
  - destruct (task_block_span (split NEWLINE_UNIT fileText))
      as [block [after [Hsplit [Hblock Hafter]]]].
    destruct block as [|b block].
    + right. split; [exact Hout|]. cbn [app] in Hsplit.
      assert (Hfirst : match split NEWLINE_UNIT fileText with
                       | [] => True
                       | l :: _ => isTaskLine l = false
                       end) by (rewrite Hsplit; exact Hafter).
      split; [exact Hfirst|].
      apply writeLineToListEnd_absent_unchanged; assumption.
    + left.
      destruct (exists_last (l := b :: block)) as [front [x Hfront]];
        [discriminate|].
      exists front, x, after. split.
      * rewrite Hsplit, Hfront, <- app_assoc. reflexivity.
      * rewrite (writeLineToListEnd_absent_after_block _ _ _ (b :: block) after)
          by (try assumption; discriminate).
        rewrite Hfront, <- app_assoc. reflexivity.
Qed.

(** X7. With a heading and a text that are not empty, nothing is thrown, and
    the output is the file itself or the lines of the file with the text put
    in after at least one of them: the first line of the file stays the
    first, and no line is changed, dropped or moved. *)
Theorem writeLineToListEnd_keeps_lines fileText headingLine textToAppend :
  textToAppend <> [] -> headingLine <> [] ->
  exists first before after,
    split NEWLINE_UNIT fileText = first :: before ++ after /\
    (writeLineToListEnd fileText headingLine textToAppend = Ok fileText \/
     writeLineToListEnd fileText headingLine textToAppend
     = Ok (join [NEWLINE_UNIT] (first :: before ++ textToAppend :: after))).
Proof.
  intros Ht Hh.
  destruct (writeLineToListEnd_cases fileText headingLine textToAppend Ht Hh)
    as [[front [x [after [Hsplit Hout]]]] | [_ [_ Hout]]].
  - destruct front as [|first front].
    + exists x, [], after. split; [exact Hsplit | right; exact Hout].
    + exists first, (front ++ [x]), after. split.
      * rewrite Hsplit, <- app_assoc. reflexivity.
      * right. rewrite Hout, <- app_assoc. reflexivity.
  - destruct (split_nonempty NEWLINE_UNIT fileText) as [first [rest Hsplit]].
    exists first, rest, []. split; [rewrite app_nil_r; exact Hsplit|].
    left. exact Hout.
Qed.

Lemma writeLineToListEnd_keeps_lines_witness :
  exists first before after,
    split NEWLINE_UNIT Examples.projectNote = first :: before ++ after /\
    (writeLineToListEnd Examples.projectNote archiveHeading
       MoreExamples.dashItem = Ok Examples.projectNote \/
     writeLineToListEnd Examples.projectNote archiveHeading
       MoreExamples.dashItem
     = Ok (join [NEWLINE_UNIT]
             (first :: before ++ MoreExamples.dashItem :: after))).
Proof.
  apply (writeLineToListEnd_keeps_lines Examples.projectNote archiveHeading
           MoreExamples.dashItem); discriminate.
Defined.

(** X8. With a heading and a text that are not empty, the file comes back
    unchanged, and the text is lost, exactly when the heading is not a line
    of the file and the first line of the file is no task line. *)
Theorem writeLineToListEnd_unchanged_iff fileText headingLine textToAppend :
  textToAppend <> [] -> headingLine <> [] ->
  (writeLineToListEnd fileText headingLine textToAppend = Ok fileText
   <->
   (headingLine ∉ split NEWLINE_UNIT fileText) /\
   match split NEWLINE_UNIT fileText with
   | [] => True
   | l :: _ => isTaskLine l = false
   end).
Proof.
  intros Ht Hh. split.
  - intros Hsame.
    destruct (writeLineToListEnd_cases fileText headingLine textToAppend Ht Hh)
      as [[front [x [after [Hsplit Hout]]]] | [Habsent [Hfirst _]]];
      [exfalso | split; assumption].
    rewrite Hout in Hsame. injection Hsame as Hsame.
    apply (f_equal (@length N)) in Hsame.
    rewrite length_join_insert, <- Hsplit, join_split in Hsame.
    cbn [length] in Hsame. lia.
  - intros [Habsent Hfirst].
    apply writeLineToListEnd_absent_unchanged; assumption.
Qed.

Lemma writeLineToListEnd_unchanged_iff_witness :
  writeLineToListEnd Examples.projectNote archiveHeading MoreExamples.dashItem
  = Ok Examples.projectNote
  <->
  (archiveHeading ∉ split NEWLINE_UNIT Examples.projectNote) /\
  match split NEWLINE_UNIT Examples.projectNote with
  | [] => True
  | l :: _ => isTaskLine l = false
  end.
Proof.
  apply (writeLineToListEnd_unchanged_iff Examples.projectNote archiveHeading
           MoreExamples.dashItem); discriminate.
Defined.

(** X9. When the heading is not a line of the file and the file starts with
    task lines, the text is put in after the block of task lines that opens
    the file. *)
Theorem writeLineToListEnd_heading_absent_after_block
    fileText headingLine textToAppend :
  textToAppend <> [] -> headingLine <> [] ->
  headingLine ∉ split NEWLINE_UNIT fileText ->
  (exists l rest, split NEWLINE_UNIT fileText = l :: rest /\
                  isTaskLine l = true) ->
  exists block after,
    split NEWLINE_UNIT fileText = block ++ after /\
    block <> [] /\
    Forall (fun l => isTaskLine l = true) block /\
    match after with [] => True | l :: _ => isTaskLine l = false end /\
    writeLineToListEnd fileText headingLine textToAppend
    = Ok (join [NEWLINE_UNIT] (block ++ textToAppend :: after)).
Proof.
  intros Ht Hh Habsent [l [rest [Hsplit Hl]]].
  destruct (task_block_span (split NEWLINE_UNIT fileText))
    as [block [after [Hspan [Hblock Hafter]]]].
  assert (Hne : block <> []).
  { intros ->. cbn [app] in Hspan. rewrite Hsplit in Hspan.
    subst after. congruence. }
  exists block, after. repeat (split; [assumption|]).
  apply writeLineToListEnd_absent_after_block; assumption.
Qed.

Lemma writeLineToListEnd_heading_absent_after_block_witness :
  exists block after,
    split NEWLINE_UNIT (lit "- [ ] a" ++ Examples.NL ++ lit "text")
    = block ++ after /\
    block <> [] /\
    Forall (fun l => isTaskLine l = true) block /\
    match after with [] => True | l :: _ => isTaskLine l = false end /\
    writeLineToListEnd (lit "- [ ] a" ++ Examples.NL ++ lit "text")
      archiveHeading MoreExamples.dashItem
    = Ok (join [NEWLINE_UNIT] (block ++ MoreExamples.dashItem :: after)).
Proof.
  apply (writeLineToListEnd_heading_absent_after_block
           (lit "- [ ] a" ++ Examples.NL ++ lit "text") archiveHeading
           MoreExamples.dashItem).
  - discriminate.
  - discriminate.
  - intros H. apply list_elem_of_In in H. vm_compute in H.
    repeat destruct H as [H | H]; try discriminate H. exact H.
  - exists (lit "- [ ] a"), [lit "text"]. split; reflexivity.
Defined.

End WriteLineToListEndMore.

(** ** Two insertions under the same heading *)

Section TwoInsertions.

Implicit Types (fileText headingLine first second : jsstring).
Implicit Types (before block after : list jsstring).

Lemma split_join_inserted fileText before rest t :
  split NEWLINE_UNIT fileText = before ++ rest ->
  NEWLINE_UNIT ∉ t ->
  split NEWLINE_UNIT (join [NEWLINE_UNIT] (before ++ t :: rest))
  = before ++ t :: rest.
Proof.
  intros Hsplit Ht. apply split_join; [destruct before; discriminate|].
  pose proof (split_no_sep NEWLINE_UNIT fileText) as Hall.
  rewrite Hsplit in Hall. apply Forall_app in Hall as [H1 H2].
  apply Forall_app. split; [exact H1|].
  apply Forall_cons. split; [exact Ht | exact H2].
Qed.

(** A second text after a first one was put in under the heading. *)
Lemma writeLineToListEnd_again fileText headingLine first second
    before block after :
  second <> [] -> headingLine <> [] ->
  split NEWLINE_UNIT fileText = before ++ headingLine :: block ++ after ->
  headingLine ∉ before ->
  Forall (fun l => isTaskLine l = true) block ->
  match after with [] => True | l :: _ => isTaskLine l = false end ->
  NEWLINE_UNIT ∉ first ->
  writeLineToListEnd
    (join [NEWLINE_UNIT] (before ++ headingLine :: block ++ first :: after))
    headingLine second
  = Ok (join [NEWLINE_UNIT]
          (if isTaskLine first
           then before ++ headingLine :: block ++ first :: second :: after
           else before ++ headingLine :: block ++ second :: first :: after)).
Proof.
  intros Hs Hh Hsplit Hb Hblock Hafter Hnl.
  assert (Hlines :
    split NEWLINE_UNIT
      (join [NEWLINE_UNIT] (before ++ headingLine :: block ++ first :: after))
    = before ++ headingLine :: block ++ first :: after).
  { replace (before ++ headingLine :: block ++ first :: after)
      with ((before ++ headingLine :: block) ++ first :: after)
      by (rewrite <- app_assoc; reflexivity).
    apply (split_join_inserted fileText); [|exact Hnl].
    rewrite Hsplit, <- app_assoc. reflexivity. }
  destruct (isTaskLine first) eqn:Hfirst.
  - replace (before ++ headingLine :: block ++ first :: second :: after)
      with (before ++ headingLine :: (block ++ [first]) ++ second :: after)
      by (rewrite <- app_assoc; reflexivity).
    apply writeLineToListEnd_found; try assumption.
    + rewrite Hlines, <- app_assoc. reflexivity.
    + apply Forall_app. split; [exact Hblock|].
      apply Forall_cons. split; [exact Hfirst | constructor].
  - apply (writeLineToListEnd_found _ _ _ before block (first :: after));
      assumption.
Qed.

(** X10. Two texts put in one after the other under a heading of the file:
    when the first text is a task line without a newline, the second one
    comes right after it, so the list keeps the order of the calls. *)
Theorem writeLineToListEnd_twice_in_order
    fileText headingLine first second :
  first <> [] -> second <> [] -> headingLine <> [] ->
  headingLine ∈ split NEWLINE_UNIT fileText ->
  NEWLINE_UNIT ∉ first ->
  isTaskLine first = true ->
  exists before block after once,
    split NEWLINE_UNIT fileText = before ++ headingLine :: block ++ after /\
    (headingLine ∉ before) /\
    Forall (fun l => isTaskLine l = true) block /\
    match after with [] => True | l :: _ => isTaskLine l = false end /\
    writeLineToListEnd fileText headingLine first = Ok once /\
    writeLineToListEnd once headingLine second
    = Ok (join [NEWLINE_UNIT]
            (before ++ headingLine :: block ++ first :: second :: after)).
Proof.
  intros Hf Hs Hh Hin Hnl Htask.
  destruct (elem_of_first_occurrence _ _ Hin) as [before [rest [Hsplit Hb]]].
  destruct (task_block_span rest) as [block [after [-> [Hblock Hafter]]]].
  exists before, block, after. eexists.
  repeat (split; [eassumption|]).
  split; [apply writeLineToListEnd_found; eassumption|].
  rewrite (writeLineToListEnd_again fileText) by assumption.
  rewrite Htask. reflexivity.
Qed.

Lemma writeLineToListEnd_twice_in_order_witness :
  exists before block after once,
    split NEWLINE_UNIT MoreExamples.archiveNote
    = before ++ archiveHeading :: block ++ after /\
    (archiveHeading ∉ before) /\
    Forall (fun l => isTaskLine l = true) block /\
    match after with [] => True | l :: _ => isTaskLine l = false end /\
    writeLineToListEnd MoreExamples.archiveNote archiveHeading
      MoreExamples.dashItem = Ok once /\
    writeLineToListEnd once archiveHeading (lit "- [x] Later task")
    = Ok (join [NEWLINE_UNIT]
            (before ++ archiveHeading :: block ++ MoreExamples.dashItem
               :: lit "- [x] Later task" :: after)).
Proof.
  apply (writeLineToListEnd_twice_in_order MoreExamples.archiveNote
           archiveHeading MoreExamples.dashItem (lit "- [x] Later task")).
  - discriminate.
  - discriminate.
  - discriminate.
  - vm_compute. apply list_elem_of_further, list_elem_of_here.
  - intros H. apply list_elem_of_In in H. vm_compute in H.
    repeat destruct H as [H | H]; try discriminate H. exact H.
  - reflexivity.
Defined.

(** X11. When the first text is not a task line, as the normalized line of a
    task written with [*] or [+] is not, the second text is put in before
    it: the later text comes first. *)
Theorem writeLineToListEnd_twice_reversed
    fileText headingLine first second :
  first <> [] -> second <> [] -> headingLine <> [] ->
  headingLine ∈ split NEWLINE_UNIT fileText ->
  NEWLINE_UNIT ∉ first ->
  isTaskLine first = false ->
  exists before block after once,
    split NEWLINE_UNIT fileText = before ++ headingLine :: block ++ after /\
    (headingLine ∉ before) /\
    Forall (fun l => isTaskLine l = true) block /\
    match after with [] => True | l :: _ => isTaskLine l = false end /\
    writeLineToListEnd fileText headingLine first = Ok once /\
    writeLineToListEnd once headingLine second
    = Ok (join [NEWLINE_UNIT]
            (before ++ headingLine :: block ++ second :: first :: after)).
Proof.
  intros Hf Hs Hh Hin Hnl Htask.
  destruct (elem_of_first_occurrence _ _ Hin) as [before [rest [Hsplit Hb]]].
  destruct (task_block_span rest) as [block [after [-> [Hblock Hafter]]]].
  exists before, block, after. eexists.
  repeat (split; [eassumption|]).
  split; [apply writeLineToListEnd_found; eassumption|].
  rewrite (writeLineToListEnd_again fileText) by assumption.
  rewrite Htask. reflexivity.
Qed.

Lemma writeLineToListEnd_twice_reversed_witness :
  exists before block after once,
    split NEWLINE_UNIT MoreExamples.archiveNote
    = before ++ archiveHeading :: block ++ after /\
    (archiveHeading ∉ before) /\
    Forall (fun l => isTaskLine l = true) block /\
    match after with [] => True | l :: _ => isTaskLine l = false end /\
    writeLineToListEnd MoreExamples.archiveNote archiveHeading
      MoreExamples.starItem = Ok once /\
    writeLineToListEnd once archiveHeading (lit "* [x] Later task")
    = Ok (join [NEWLINE_UNIT]
            (before ++ archiveHeading :: block ++ lit "* [x] Later task"
               :: MoreExamples.starItem :: after)).
Proof.
  apply (writeLineToListEnd_twice_reversed MoreExamples.archiveNote
           archiveHeading MoreExamples.starItem (lit "* [x] Later task")).
  - discriminate.
  - discriminate.
  - discriminate.
  - vm_compute. apply list_elem_of_further, list_elem_of_here.
  - intros H. apply list_elem_of_In in H. vm_compute in H.
    repeat destruct H as [H | H]; try discriminate H. exact H.
  - reflexivity.
Defined.

End TwoInsertions.

(** ** [handleOnCompletion]: what is written and what is removed *)

Section Dispatcher.

Variable appendToEndOfFile : jsstring -> jsstring -> jsstring.
Implicit Types (store : Store) (task changed : ref) (tasks : list ref).
Implicit Types (toLogFilePath data : jsstring).

(** The outcomes of a call: nothing happens, the changed task is removed
    without a call of the writer, it is removed with one call, or a message
    is logged. *)
Lemma handleOnCompletion_outcomes store task tasks toLogFilePath :
  let outcome :=
    handleOnCompletion appendToEndOfFile store task tasks toLogFilePath in
  outcome = ret tasks \/
  (exists message, outcome = ([ConsoleLog message], tasks)) \/
  exists changed,
    last tasks = Some changed /\
    (outcome = ret (returnWithoutCompletedInstance tasks changed) \/
     exists filePath updater,
       outcome = ([FileWriterCall filePath updater],
                  returnWithoutCompletedInstance tasks changed)).
Proof.
  cbv zeta. unfold handleOnCompletion.
  destruct (last tasks) as [changed|]; [|left; reflexivity].
  repeat match goal with
         | |- context [if ?b then _ else _] => destruct b
         end;
    first [ left; reflexivity
          | right; left; eexists; reflexivity
          | right; right; exists changed; split; [reflexivity|];
            first [ left; reflexivity
                  | right; eexists; eexists; reflexivity ] ].
Qed.

Lemma changed_not_in_result tasks changed :
  last tasks = Some changed ->
  (changed ∉ returnWithoutCompletedInstance tasks changed) /\
  (length (returnWithoutCompletedInstance tasks changed) < length tasks)%nat.
Proof.
  intros Hlast. split.
  - rewrite returnWithoutCompletedInstance_elem. intros [Hne _]. congruence.
  - unfold returnWithoutCompletedInstance.
    apply (length_filter_lt _ _ changed).
    + apply last_Some_elem_of, Hlast.
    + intros Hne. congruence.
Qed.

(** X12. A call produces at most one event: the writer is called at most
    once, and never in the same call as the message about an unknown action
    is logged. *)
Theorem handleOnCompletion_at_most_one_event
    store task tasks toLogFilePath :
  let events :=
    (handleOnCompletion appendToEndOfFile store task tasks toLogFilePath).1 in
  (length events <= 1)%nat /\
  (length (fileWriterCalls events) <= 1)%nat /\
  (forall message, ConsoleLog message ∈ events -> fileWriterCalls events = []).
Proof.
  cbv zeta.
  destruct (handleOnCompletion_outcomes store task tasks toLogFilePath)
    as [-> | [[message ->] | [changed [_ [-> | [filePath [updater ->]]]]]]];
    cbn; repeat split; try lia; try reflexivity.
  intros message H. apply list_elem_of_In in H.
  destruct H as [H | []]. discriminate H.
Qed.

(** X13. Whenever the writer is called, the changed task, the last of the
    list, is absent from the list that is returned, which is shorter than
    the input: no write is issued for a task that is kept. *)
Theorem handleOnCompletion_write_removes
    store task tasks toLogFilePath :
  fileWriterCalls
    (handleOnCompletion appendToEndOfFile store task tasks toLogFilePath).1
  <> [] ->
  exists changed,
    last tasks = Some changed /\
    (changed ∉
       (handleOnCompletion appendToEndOfFile store task tasks
          toLogFilePath).2) /\
    (length (handleOnCompletion appendToEndOfFile store task tasks
               toLogFilePath).2 < length tasks)%nat.
Proof.
  destruct (handleOnCompletion_outcomes store task tasks toLogFilePath)
    as [-> | [[message ->] | [changed [Hlast [-> | [filePath [updater ->]]]]]]];
    cbn; try congruence.
  intros _. exists changed. split; [exact Hlast|].
  apply changed_not_in_result, Hlast.
Qed.

End Dispatcher.

Lemma handleOnCompletion_write_removes_witness :
  exists changed,
    last [1%nat; 2%nat] = Some changed /\
    (changed ∉
       (handleOnCompletion FileWriter.appendToEndOfFile
          (Examples.completing "ToLogFile") 0%nat [1%nat; 2%nat]
          Examples.archivePath).2) /\
    (length (handleOnCompletion FileWriter.appendToEndOfFile
               (Examples.completing "ToLogFile") 0%nat [1%nat; 2%nat]
               Examples.archivePath).2 < length [1%nat; 2%nat])%nat.
Proof.
  apply (handleOnCompletion_write_removes FileWriter.appendToEndOfFile
           (Examples.completing "ToLogFile") 0%nat [1%nat; 2%nat]
           Examples.archivePath).
  vm_compute. discriminate.
Defined.

(** ** Archiving into the list of the note *)

Section ArchiveToList.

Variable appendToEndOfFile : jsstring -> jsstring -> jsstring.
Variable store : Store.
Variables (task changed : ref) (tasks : list ref) (toLogFilePath : jsstring).

Let taskString := description (store changed).
Let textToWrite := adjustLineForArchival (toFileLineString (store changed)).

Hypothesis tasks_last : last tasks = Some changed.
Hypothesis gate_trigger : includes taskString ocTrigger = true.
Hypothesis gate_done : type (status (store changed)) = DONE.
Hypothesis gate_changed :
  type (status (store changed)) <> type (status (store task)).
Hypothesis no_delete : includes taskString (FLAG ++ lit " Delete") = false.
Hypothesis no_log_file :
  includes taskString (FLAG ++ lit " ToLogFile") = false.
Hypothesis to_list :
  includes taskString (FLAG ++ lit " ToLogList") = true \/
  includes taskString (FLAG ++ lit " EndOfList") = true.

(** On both branches the writer gets the path of the changed task and the
    insertion under the archive heading. *)
Lemma handleOnCompletion_to_list :
  handleOnCompletion appendToEndOfFile store task tasks toLogFilePath
  = ([FileWriterCall (path (store changed))
        (fun data => writeLineToListEnd data archiveHeading textToWrite)],
     returnWithoutCompletedInstance tasks changed).
Proof.
  rewrite (handleOnCompletion_gate_open _ _ _ changed) by assumption.
  fold taskString. rewrite no_delete, no_log_file.
  destruct (includes taskString (FLAG ++ lit " ToLogList")) eqn:Hlist;
    [reflexivity|].
  destruct to_list as [H | H]; [discriminate H|].
  rewrite H. reflexivity.
Qed.

(** X14. On the ToLogList and EndOfList branches the updater given to the
    writer returns a content for every content of the file, it never throws;
    when the normalized line is empty it returns the content as it is. *)
Theorem handleOnCompletion_list_updater_total :
  exists updater,
    handleOnCompletion appendToEndOfFile store task tasks toLogFilePath
    = ([FileWriterCall (path (store changed)) updater],
       filter (fun t => t <> changed) tasks) /\
    (forall data, exists output, updater data = Ok output) /\
    (textToWrite = [] -> forall data, updater data = Ok data).
Proof.
  eexists. split; [apply handleOnCompletion_to_list|]. split.
  - intros data. cbv beta.
    destruct (decide (textToWrite = [])) as [-> | Hne]; [eauto|].
    rewrite writeLineToListEnd_steps by (exact Hne || discriminate).
    eauto.
  - intros -> data. reflexivity.
Qed.

(** X15. On these branches, for a content of the note that has the archive
    heading as a line and a normalized line that is not empty, the updater
    puts the normalized line after the block of task lines under the first
    occurrence of the heading, and the changed task is no longer in the
    returned list. *)
Theorem handleOnCompletion_archives_under_heading data :
  textToWrite <> [] ->
  archiveHeading ∈ split NEWLINE_UNIT data ->
  exists updater before block after,
    handleOnCompletion appendToEndOfFile store task tasks toLogFilePath
    = ([FileWriterCall (path (store changed)) updater],
       filter (fun t => t <> changed) tasks) /\
    (changed ∉ filter (fun t => t <> changed) tasks) /\
    split NEWLINE_UNIT data = before ++ archiveHeading :: block ++ after /\
    (archiveHeading ∉ before) /\
    Forall (fun l => isTaskLine l = true) block /\
    match after with [] => True | l :: _ => isTaskLine l = false end /\
    updater data
    = Ok (join [NEWLINE_UNIT]
            (before ++ archiveHeading :: block ++ textToWrite :: after)).
Proof.
  intros Hne Hin.
  destruct (elem_of_first_occurrence _ _ Hin) as [before [rest [Hsplit Hb]]].
  destruct (task_block_span rest) as [block [after [-> [Hblock Hafter]]]].
  eexists. exists before, block, after.
  split; [apply handleOnCompletion_to_list|].
  split; [apply changed_not_in_result, tasks_last|].
  repeat (split; [assumption|]).
  cbv beta. apply writeLineToListEnd_found; try assumption. discriminate.
Qed.

(** X16. On these branches, for a content of the note without the archive
    heading whose first line is no task line, the updater returns the
    content as it is although the normalized line is not empty, while the
    changed task is removed from the returned list: the completed task is
    kept nowhere. *)
Theorem handleOnCompletion_archive_lost data :
  textToWrite <> [] ->
  archiveHeading ∉ split NEWLINE_UNIT data ->
  match split NEWLINE_UNIT data with
  | [] => True
  | l :: _ => isTaskLine l = false
  end ->
  exists updater,
    handleOnCompletion appendToEndOfFile store task tasks toLogFilePath
    = ([FileWriterCall (path (store changed)) updater],
       filter (fun t => t <> changed) tasks) /\
    (changed ∉ filter (fun t => t <> changed) tasks) /\
    updater data = Ok data.
Proof.
  intros Hne Habsent Hfirst.
  eexists. split; [apply handleOnCompletion_to_list|].
  split; [apply changed_not_in_result, tasks_last|].
  cbv beta. apply writeLineToListEnd_absent_unchanged; try assumption.
  discriminate.
Qed.

End ArchiveToList.

Lemma handleOnCompletion_list_updater_total_witness :
  exists updater,
    handleOnCompletion FileWriter.appendToEndOfFile MoreExamples.toLogList
      0%nat [1%nat; 2%nat] Examples.archivePath
    = ([FileWriterCall (path (MoreExamples.toLogList 2%nat)) updater],
       filter (fun t => t <> 2%nat) [1%nat; 2%nat]) /\
    (forall data, exists output, updater data = Ok output) /\
    (adjustLineForArchival (toFileLineString (MoreExamples.toLogList 2%nat))
     = [] ->
     forall data, updater data = Ok data).
Proof.
  apply (handleOnCompletion_list_updater_total FileWriter.appendToEndOfFile
           MoreExamples.toLogList 0%nat 2%nat [1%nat; 2%nat]
           Examples.archivePath).
  - reflexivity.
  - vm_compute. reflexivity.
  - reflexivity.
  - discriminate.
  - vm_compute. reflexivity.
  - vm_compute. reflexivity.
  - left. vm_compute. reflexivity.
Defined.

Lemma handleOnCompletion_archives_under_heading_witness :
  exists updater before block after,
    handleOnCompletion FileWriter.appendToEndOfFile MoreExamples.toLogList
      0%nat [1%nat; 2%nat] Examples.archivePath
    = ([FileWriterCall (path (MoreExamples.toLogList 2%nat)) updater],
       filter (fun t => t <> 2%nat) [1%nat; 2%nat]) /\
    (2%nat ∉ filter (fun t => t <> 2%nat) [1%nat; 2%nat]) /\
    split NEWLINE_UNIT MoreExamples.archiveNote
    = before ++ archiveHeading :: block ++ after /\
    (archiveHeading ∉ before) /\
    Forall (fun l => isTaskLine l = true) block /\
    match after with [] => True | l :: _ => isTaskLine l = false end /\
    updater MoreExamples.archiveNote
    = Ok (join [NEWLINE_UNIT]
            (before ++ archiveHeading :: block
               ++ adjustLineForArchival
                    (toFileLineString (MoreExamples.toLogList 2%nat))
               :: after)).
Proof.
  apply (handleOnCompletion_archives_under_heading
           FileWriter.appendToEndOfFile MoreExamples.toLogList 0%nat 2%nat
           [1%nat; 2%nat] Examples.archivePath).
  - reflexivity.
  - vm_compute. reflexivity.
  - reflexivity.
  - discriminate.
  - vm_compute. reflexivity.
  - vm_compute. reflexivity.
  - left. vm_compute. reflexivity.
  - vm_compute. discriminate.
  - vm_compute. apply list_elem_of_further, list_elem_of_here.
Defined.

Lemma handleOnCompletion_archive_lost_witness :
  exists updater,
    handleOnCompletion FileWriter.appendToEndOfFile MoreExamples.toLogList
      0%nat [1%nat; 2%nat] Examples.archivePath
    = ([FileWriterCall (path (MoreExamples.toLogList 2%nat)) updater],
       filter (fun t => t <> 2%nat) [1%nat; 2%nat]) /\
    (2%nat ∉ filter (fun t => t <> 2%nat) [1%nat; 2%nat]) /\
    updater Examples.projectNote = Ok Examples.projectNote.
Proof.
  apply (handleOnCompletion_archive_lost
           FileWriter.appendToEndOfFile MoreExamples.toLogList 0%nat 2%nat
           [1%nat; 2%nat] Examples.archivePath).
  - reflexivity.
  - vm_compute. reflexivity.
  - reflexivity.
  - discriminate.
  - vm_compute. reflexivity.
  - vm_compute. reflexivity.
  - left. vm_compute. reflexivity.
  - vm_compute. discriminate.
  - intros H. apply list_elem_of_In in H. vm_compute in H.
    repeat destruct H as [H | H]; try discriminate H. exact H.
  - vm_compute. reflexivity.
Defined.

(** ** [trim] and [replace] *)

Section TrimReplace.

Implicit Types s p r a b t ws : jsstring.

Lemma trimEnd_decomp s :
  exists ws, s = trimEnd s ++ ws /\ Forall (fun c => isWhiteSpace c = true) ws.
Proof.
  unfold trimEnd.
  destruct (trimStart_decomp (reverse s)) as [ws [E Hws]].
  exists (reverse ws). split.
  - rewrite <- reverse_app, <- E. symmetry. apply reverse_involutive.
  - apply Forall_reverse. exact Hws.
Qed.

Lemma trimEnd_last s c : last (trimEnd s) = Some c -> isWhiteSpace c = false.
Proof.
  unfold trimEnd. rewrite last_reverse.
  destruct (trimStart (reverse s)) as [|d t] eqn:E; [discriminate|].
  intros [= ->]. apply (trimStart_head _ _ _ E).
Qed.

Lemma trim_decomp s :
  exists ws1 ws2,
    s = ws1 ++ trim s ++ ws2 /\
    Forall (fun c => isWhiteSpace c = true) ws1 /\
    Forall (fun c => isWhiteSpace c = true) ws2.
Proof.
  unfold trim.
  destruct (trimStart_decomp s) as [ws1 [E1 H1]].
  destruct (trimEnd_decomp (trimStart s)) as [ws2 [E2 H2]].
  exists ws1, ws2. split; [rewrite <- E2; exact E1 | split; assumption].
Qed.

Lemma trim_head s c t : trim s = c :: t -> isWhiteSpace c = false.
Proof.
  unfold trim. intros E.
  destruct (trimEnd_decomp (trimStart s)) as [ws [E2 _]].
  rewrite E in E2. apply (trimStart_head _ _ _ E2).
Qed.

Lemma trim_last s c : last (trim s) = Some c -> isWhiteSpace c = false.
Proof. apply trimEnd_last. Qed.

Lemma length_trim s : (length (trim s) <= length s)%nat.
Proof.
  destruct (trim_decomp s) as [ws1 [ws2 [E _]]].
  rewrite E at 2. rewrite !length_app. lia.
Qed.

Lemma includes_empty s : includes s [] = true.
Proof. destruct s; reflexivity. Qed.

Lemma includes_false_cons c s p :
  includes (c :: s) p = false ->
  startsWith (c :: s) p = false /\ includes s p = false.
Proof. cbn [includes]. apply orb_false_iff. Qed.

(** Nothing is replaced where the string does not occur. *)
Lemma replace_not_included s p r : includes s p = false -> replace s p r = s.
Proof.
  induction s as [|c s IH]; intros H.
  - cbn in *. rewrite orb_false_r in H. rewrite H. reflexivity.
  - apply includes_false_cons in H as [H1 H2].
    cbn [replace]. rewrite H1, (IH H2). reflexivity.
Qed.

(** The first occurrence is the one that is replaced. *)
Lemma replace_first s p r a b :
  s = a ++ p ++ b ->
  (forall a' b', s = a' ++ p ++ b' -> (length a <= length a')%nat) ->
  replace s p r = a ++ r ++ b.
Proof.
  revert s. induction a as [|c a IH]; intros s -> Hmin.
  - cbn [app]. destruct (p ++ b) as [|d u] eqn:E.
    + apply app_eq_nil in E as [-> ->]. reflexivity.
    + cbn [replace]. rewrite <- E, startsWith_app.
      rewrite drop_app_length. reflexivity.
  - cbn [app replace].
    destruct (startsWith (c :: a ++ p ++ b) p) eqn:Hstart.
    + apply startsWith_spec in Hstart as [t Ht].
      specialize (Hmin [] t Ht). cbn in Hmin. lia.
    + f_equal. apply IH; [reflexivity|].
      intros a' b' E. specialize (Hmin (c :: a') b').
      cbn in Hmin. rewrite E in Hmin. specialize (Hmin eq_refl). lia.
Qed.

Lemma replace_prefix p r b : replace (p ++ b) p r = r ++ b.
Proof.
  apply (replace_first _ p r [] b); [reflexivity|].
  intros a' b' _. cbn. lia.
Qed.

Lemma length_replace_empty s p : (length (replace s p []) <= length s)%nat.
Proof.
  induction s as [|c s IH]; cbn [replace].
  - destruct (startsWith [] p); cbn; [rewrite drop_nil|]; cbn; lia.
  - destruct (startsWith (c :: s) p).
    + cbn [app]. rewrite length_drop. lia.
    + cbn [length]. lia.
Qed.

End TrimReplace.

(** ** [GlobalFilter] *)

Section GlobalFilterFacts.

Implicit Types (st : GlobalFilter.statics) (v d tag : jsstring) (flag : bool).

(** X17. Whether or not the instance exists yet: what [set] stores is what
    [get] returns, and the flag is as before; what [setRemoveGlobalFilter]
    stores is what [getRemoveGlobalFilter] returns, and the filter is as
    before; the methods that only read leave what [get] returns as it
    was. *)
Theorem GlobalFilter_set_get st v flag d :
  (GlobalFilter.get (GlobalFilter.set v st).2).1 = v /\
  (GlobalFilter.getRemoveGlobalFilter (GlobalFilter.set v st).2).1
  = (GlobalFilter.getRemoveGlobalFilter st).1 /\
  (GlobalFilter.getRemoveGlobalFilter
     (GlobalFilter.setRemoveGlobalFilter flag st).2).1 = flag /\
  (GlobalFilter.get (GlobalFilter.setRemoveGlobalFilter flag st).2).1
  = (GlobalFilter.get st).1 /\
  GlobalFilter.get (GlobalFilter.get st).2 = GlobalFilter.get st /\
  GlobalFilter.get (GlobalFilter.includedIn d st).2 = GlobalFilter.get st /\
  GlobalFilter.get (GlobalFilter.prependTo d st).2 = GlobalFilter.get st /\
  GlobalFilter.get (GlobalFilter.removeAsSubstringFrom d st).2
  = GlobalFilter.get st.
Proof. destruct st as [[gf rm]|]; repeat split; reflexivity. Qed.

(** X18. After [reset], and as long as no filter was ever set, the filter
    is empty: every description includes it, and removing it from a
    description only trims the description. *)
Theorem GlobalFilter_reset st d :
  (GlobalFilter.isEmpty (GlobalFilter.reset st).2).1 = true /\
  (GlobalFilter.includedIn d (GlobalFilter.reset st).2).1 = true /\
  (GlobalFilter.removeAsSubstringFrom d (GlobalFilter.reset st).2).1
  = trim d /\
  (GlobalFilter.isEmpty None).1 = true /\
  (GlobalFilter.includedIn d None).1 = true /\
  (GlobalFilter.removeAsSubstringFrom d None).1 = trim d.
Proof.
  assert (Hrep : replace d [] [] = d) by (destruct d; reflexivity).
  destruct st as [[gf rm]|]; cbn; unfold GlobalFilter.empty;
    rewrite ?includes_empty, ?Hrep; repeat split; reflexivity.
Qed.

(** X19. [removeAsSubstringFrom] takes out the first occurrence of the
    filter and no other, and trims what is left. *)
Theorem GlobalFilter_removeAsSubstringFrom_first st d a b :
  d = a ++ (GlobalFilter.get st).1 ++ b ->
  (forall a' b', d = a' ++ (GlobalFilter.get st).1 ++ b' ->
                 (length a <= length a')%nat) ->
  (GlobalFilter.removeAsSubstringFrom d st).1 = trim (a ++ b).
Proof.
  intros Hd Hmin. unfold GlobalFilter.removeAsSubstringFrom.
  destruct (GlobalFilter.get st) as [gf st'] eqn:E. cbn [fst] in *.
  rewrite (replace_first d gf [] a b Hd Hmin). reflexivity.
Qed.

Lemma GlobalFilter_removeAsSubstringFrom_first_witness :
  (GlobalFilter.removeAsSubstringFrom
     (lit "Buy milk #task and #task again") MoreExamples.tagged).1
  = lit "Buy milk  and #task again".
Proof.
  apply (GlobalFilter_removeAsSubstringFrom_first MoreExamples.tagged
           (lit "Buy milk #task and #task again")
           (lit "Buy milk ") (lit " and #task again")).
  - reflexivity.
  - intros a' b' E.
    destruct (Nat.le_gt_cases (length (lit "Buy milk ")) (length a'))
      as [H | H]; [exact H | exfalso].
    change (length (lit "Buy milk ")) with 9%nat in H.
    do 9 (destruct a' as [|? a']; [vm_compute in E; discriminate E|]).
    cbn in H. lia.
Defined.

(** X20. Removing the filter from a description to which it was prepended
    gives the description back, trimmed; and the filter is included in the
    description to which it was prepended. *)
Theorem GlobalFilter_prependTo_removeAsSubstringFrom st d :
  (GlobalFilter.removeAsSubstringFrom (GlobalFilter.prependTo d st).1
     (GlobalFilter.prependTo d st).2).1 = trim d /\
  (GlobalFilter.includedIn (GlobalFilter.prependTo d st).1
     (GlobalFilter.prependTo d st).2).1 = true.
Proof.
  assert (H : forall gf,
            trim (replace (gf ++ lit " " ++ d) gf []) = trim d /\
            includes (gf ++ lit " " ++ d) gf = true).
  { intros gf. split.
    - rewrite replace_prefix. reflexivity.
    - apply includes_spec. exists [], (lit " " ++ d). reflexivity. }
  destruct st as [[gf rm]|]; apply H.
Qed.

(** X21. What [removeAsSubstringFrom] returns neither starts nor ends with
    whitespace and is never longer than the description; when the filter
    does not occur in the description, it is the description, trimmed. *)
Theorem GlobalFilter_removeAsSubstringFrom_trimmed st d :
  let result := (GlobalFilter.removeAsSubstringFrom d st).1 in
  (forall c t, result = c :: t -> isWhiteSpace c = false) /\
  (forall c, last result = Some c -> isWhiteSpace c = false) /\
  (length result <= length d)%nat /\
  ((GlobalFilter.includedIn d st).1 = false -> result = trim d).
Proof.
  cbv zeta. unfold GlobalFilter.removeAsSubstringFrom, GlobalFilter.includedIn.
  destruct (GlobalFilter.get st) as [gf st']. cbn [fst].
  split; [apply trim_head|]. split; [apply trim_last|]. split.
  - pose proof (length_trim (replace d gf [])).
    pose proof (length_replace_empty d gf). lia.
  - intros H. rewrite (replace_not_included _ _ _ H). reflexivity.
Qed.

End GlobalFilterFacts.

(** ** The empty file *)

(** X22. On an empty file, with a heading and a text that are not empty,
    the result is the empty file: the text is not written. *)
Theorem writeLineToListEnd_empty_file (headingLine textToAppend : jsstring) :
  textToAppend <> [] -> headingLine <> [] ->
  writeLineToListEnd [] headingLine textToAppend = Ok [].
Proof.
  intros Ht Hh. apply writeLineToListEnd_absent_unchanged; try assumption.
  - cbn [split]. intros H. apply list_elem_of_In in H.
    destruct H as [H | []]. congruence.
  - reflexivity.
Qed.

Lemma writeLineToListEnd_empty_file_witness :
  writeLineToListEnd [] archiveHeading MoreExamples.dashItem = Ok [].
Proof.
  apply (writeLineToListEnd_empty_file archiveHeading MoreExamples.dashItem);
    discriminate.
Defined.
